(** * Exemplifi SmartDoc InDesign Import: content normalization pipeline

    A shallow embedding of the ExtendScript import script
    ("Exemplifi SmartDoc InDesign Import.jsx", all revisions kept in the
    repository) and the properties its specification states about it.

    Conventions of the embedding.
    - A JavaScript string is the list of its UTF-16 code units ([list N]).
    - The host document model (InDesign) is an external collaborator: its
      objects are records holding the properties the script reads and writes,
      and a collection indexed by the script is a list.
    - A host lookup that may miss ([itemByName] followed by a probe inside
      [try]) is an [option].  The executions modelled are those in which the
      host raises no other exception, so the remaining catch-all handlers of the
      script are never entered.
    - The numbers of the host (page bounds, margins, the left indent of a
      paragraph) are JavaScript numbers: binary64 floats, added, subtracted
      and compared as the script does. *)

From Stdlib Require Import ZArith NArith List Bool Lia String Ascii Sorted Floats.
From Equations Require Import Equations.
From stdpp Require Import base list gmap.

Local Open Scope N_scope.

(** ** JavaScript strings and the regular expressions of the script *)


Module JsString.

Abbreviation jsstring := (list N).

(** ASCII literal to code units. *)
Definition str (s : string) : jsstring :=
  map N_of_ascii (list_ascii_of_string s).

Definition TAB : N := 9.
Definition CR : N := 13.
Definition SP : N := 32.

(** The class [\s]: ECMAScript WhiteSpace and LineTerminator. *)
Definition isSpace (c : N) : bool :=
  ((9 <=? c) && (c <=? 13)) || (c =? 32) || (c =? 0xA0) || (c =? 0x1680)
  || ((0x2000 <=? c) && (c <=? 0x200A)) || (c =? 0x2028) || (c =? 0x2029)
  || (c =? 0x202F) || (c =? 0x205F) || (c =? 0x3000) || (c =? 0xFEFF).

(** The class [\d]. *)
Definition isDigit (c : N) : bool := (48 <=? c) && (c <=? 57).

(** Greedy [cls*] at the head of the subject: what is left after it. *)
Fixpoint many (cls : N -> bool) (s : jsstring) : jsstring :=
  match s with
  | [] => []
  | c :: s' => if cls c then many cls s' else s
  end.

(** Greedy [cls+]: fails when the head is not in the class. *)
Definition many1 (cls : N -> bool) (s : jsstring) : option jsstring :=
  match s with
  | [] => None
  | c :: s' => if cls c then Some (many cls s') else None
  end.

(** A single [cls] character. *)
Definition oneOf (cls : N -> bool) (s : jsstring) : option jsstring :=
  match s with
  | [] => None
  | c :: s' => if cls c then Some s' else None
  end.

(** [\t?] *)
Definition optTab (s : jsstring) : jsstring :=
  match s with
  | [] => []
  | c :: s' => if c =? TAB then s' else s
  end.

(** [s.replace(/^\s+/, "")] *)
Definition ltrim (s : jsstring) : jsstring := many isSpace s.

(** [s.replace(/\s+$/, "")] *)
Fixpoint rtrim (s : jsstring) : jsstring :=
  match s with
  | [] => []
  | c :: s' =>
      match rtrim s' with
      | [] => if isSpace c then [] else [c]
      | r => c :: r
      end
  end.

(** [s.replace(/^\s+|\s+$/g, "")] *)
Definition trim (s : jsstring) : jsstring := rtrim (ltrim s).

(** [s.replace(/\s/g, "")] *)
Fixpoint removeSpaces (s : jsstring) : jsstring :=
  match s with
  | [] => []
  | c :: s' => if isSpace c then removeSpaces s' else c :: removeSpaces s'
  end.

(** [s.replace(/\s/g, "") === ""] *)
Definition isBlank (s : jsstring) : bool :=
  match removeSpaces s with
  | [] => true
  | _ => false
  end.

(** Case-insensitive comparison of code units against an ASCII pattern
    character: the [i] flag folds only A-Z onto a-z there. *)
Definition foldCase (c : N) : N :=
  if (65 <=? c) && (c <=? 90) then c + 32 else c.

Definition ieqb (a b : N) : bool := foldCase a =? foldCase b.

(** [/^pat/i.test(s)] for a literal pattern; the rest on success. *)
Fixpoint iprefix (pat s : jsstring) : option jsstring :=
  match pat, s with
  | [], _ => Some s
  | _ :: _, [] => None
  | a :: pat', c :: s' => if ieqb a c then iprefix pat' s' else None
  end.

(** [/pat/i.test(s)] for a literal pattern: a match at some position. *)
Fixpoint icontains (pat s : jsstring) : bool :=
  match iprefix pat s with
  | Some _ => true
  | None =>
      match s with
      | [] => false
      | _ :: s' => icontains pat s'
      end
  end.

(** [/^\t/.test(s)] *)
Definition startsWithTab (s : jsstring) : bool :=
  match s with
  | c :: _ => c =? TAB
  | [] => false
  end.

End JsString.

(** ** Shapes of strings

    The words in which the properties below say what a replacement removed
    and what it left.  They are not taken from the script: they speak of a
    string's code units through the class [\s] (or another class) alone. *)

Module Shape.
Import JsString.

(** Every code unit of the string is in the class. *)
Definition allIn (cls : N -> bool) (s : jsstring) : bool := forallb cls s.

(** The string is not empty and its first code unit is in the class. *)
Definition ledBy (cls : N -> bool) (s : jsstring) : bool :=
  match s with
  | c :: _ => cls c
  | [] => false
  end.

(** The string is not empty and its last code unit is in the class. *)
Definition endedBy (cls : N -> bool) (s : jsstring) : bool :=
  match last s with
  | Some c => cls c
  | None => false
  end.

(** Some code unit of the string is not white space. *)
Definition visible (s : jsstring) : bool :=
  existsb (fun c => negb (isSpace c)) s.

(** [q] is [p] without the white space at its two ends: [p] is [q] between
    two runs of white space, and [q] neither begins nor ends with white
    space. *)
Definition trimmedOf (p q : jsstring) : Prop :=
  exists before after,
    p = before ++ q ++ after
    /\ allIn isSpace before = true /\ allIn isSpace after = true
    /\ ledBy isSpace q = false /\ endedBy isSpace q = false.

End Shape.

(** ** Pagination flow controller (step 4 of the script, lines 22-41)

    The host decides two things the script only observes: the geometry of a
    page it creates, and whether the story still overflows.  Both are
    parameters here.  Overflow is read as the glossary defines it: the story
    holds more content than its container chain can display; [capacity]
    gives, for a frame of given bounds, how many units of content it
    displays.  Bounds and margins are JavaScript numbers, that is binary64
    floats, and the script's [+] and [-] on them are the float
    operations. *)

Module Pagination.

(** [bounds = [y1, x1, y2, x2]] *)
Record Bounds := { y1 : float; x1 : float; y2 : float; x2 : float }.

Record Margins := {
  top : float; left : float; bottom : float; right : float
}.

Record Page := {
  bounds : Bounds;
  marginPreferences : Margins;
  textFrames : list Bounds
}.

(** A text frame of the story's chain: the page it lies on (index in
    [doc.pages]) and its bounds. *)
Record Container := { onPage : nat; geometricBounds : Bounds }.

Record State := {
  pages : list Page;               (* doc.pages *)
  content : nat;                   (* amount of text of the story *)
  textContainers : list Container  (* story.textContainers, in chain order *)
}.

(** The bounds [createFrameInsideMargins] gives to the frame (lines 22-25):
    [[b[0]+m.top, b[1]+m.left, b[2]-m.bottom, b[3]-m.right]]. *)
Definition insideMargins (p : Page) : Bounds :=
  let m := marginPreferences p in
  let b := bounds p in
  {| y1 := y1 b + top m; x1 := x1 b + left m;
     y2 := y2 b - bottom m; x2 := x2 b - right m |}%float.

(** [page.textFrames.add({geometricBounds: ...})] *)
Definition createFrameInsideMargins (p : Page) : Page * Bounds :=
  let f := insideMargins p in
  ({| bounds := bounds p; marginPreferences := marginPreferences p;
      textFrames := textFrames p ++ [f] |}, f).

(** The extent of a side running from [a] to [b]: none when they meet or
    cross. *)
Definition extent (a b : float) : float :=
  if (a <? b)%float then (b - a)%float else 0%float.

(** Usable area of a frame: none when the margins meet or cross. *)
Definition usableArea (b : Bounds) : float :=
  (extent (y1 b) (y2 b) * extent (x1 b) (x2 b))%float.

(** The whole units in a number that is not negative; none in any other. *)
Definition wholeUnits (f : float) : nat :=
  match Prim2SF f with
  | S754_finite false m e => Z.to_nat (Z.shiftl (Z.pos m) e)
  | _ => 0%nat
  end.

Section Host.

(** The page [doc.pages.add] creates, given the pages there are. *)
Variable newPage : list Page -> Page.

(** Units of content a frame of these bounds displays. *)
Variable capacity : Bounds -> nat.

Definition displayed (cs : list Container) : nat :=
  foldr (fun c n => (capacity (geometricBounds c) + n)%nat) 0%nat cs.

(** [story.overflows] *)
Definition overflows (st : State) : bool :=
  (displayed (textContainers st) <? content st)%nat.

(** [doc.pages.add(LocationOptions.AFTER, page)] with [page] at index [i]:
    the new page takes index [i + 1]. *)
Definition pagesAddAfter (i : nat) (pg : Page) (ps : list Page) : list Page :=
  take (S i) ps ++ pg :: drop (S i) ps.

(** One turn of the loop body (lines 37-40).  The document has at least one
    page: the script has read [doc.pages[0]] before. *)
Definition flowStep (st : State) : State :=
  let lastIndex := (length (pages st) - 1)%nat in      (* lastPage *)
  let '(pg, frame) := createFrameInsideMargins (newPage (pages st)) in
  {| pages := pagesAddAfter lastIndex pg (pages st);
     content := content st;
     textContainers :=
       textContainers st
       ++ [{| onPage := S lastIndex; geometricBounds := frame |}] |}.

(** [while (story.overflows) { ... }]: [None] when [fuel] turns were not
    enough for the loop to end. *)
Fixpoint flowOversetText (fuel : nat) (st : State) : option State :=
  if overflows st then
    match fuel with
    | O => None
    | S fuel' => flowOversetText fuel' (flowStep st)
    end
  else Some st.

(** The state after [n] turns of the body, whatever the loop test says. *)
Fixpoint turns (n : nat) (st : State) : State :=
  match n with
  | O => st
  | S n' => flowStep (turns n' st)
  end.

End Host.

(** [st'] is [st] with [n] pages appended after its last page and [n]
    containers appended to its chain, the k-th new container lying on the
    k-th new page and being one of that page's text frames; its bounds are
    the page's bounds moved inwards by the page's margins: top and left edge
    plus the top and left margin, bottom and right edge minus the bottom and
    right margin. *)
Definition grown (st st' : State) (n : nat) : Prop :=
  exists added new,
    pages st' = pages st ++ added
    /\ textContainers st' = textContainers st ++ new
    /\ content st' = content st
    /\ length added = n /\ length new = n
    /\ forall k c, new !! k = Some c ->
         onPage c = (length (pages st) + k)%nat
         /\ exists pg, added !! k = Some pg
              /\ y1 (geometricBounds c)
                 = (y1 (bounds pg) + top (marginPreferences pg))%float
              /\ x1 (geometricBounds c)
                 = (x1 (bounds pg) + left (marginPreferences pg))%float
              /\ y2 (geometricBounds c)
                 = (y2 (bounds pg) - bottom (marginPreferences pg))%float
              /\ x2 (geometricBounds c)
                 = (x2 (bounds pg) - right (marginPreferences pg))%float
              /\ geometricBounds c ∈ textFrames pg.

(** Every container lies on an existing page, strictly after the page of
    the container it follows. *)
Definition chainOrdered (st : State) : Prop :=
  StronglySorted lt (map onPage (textContainers st))
  /\ Forall (fun c => (onPage c < length (pages st))%nat) (textContainers st).

(** A host whose frames display one unit per unit of usable area. *)
Definition areaCapacity (b : Bounds) : nat := wholeUnits (usableArea b).

Definition pageOf (height width margin : float) : Page :=
  {| bounds := {| y1 := 0; x1 := 0; y2 := height; x2 := width |};
     marginPreferences :=
       {| top := margin; left := margin; bottom := margin; right := margin |};
     textFrames := [] |}.

(** Lines 27-29: the first text frame of the first page, or a new frame
    inside its margins when the page has none. *)
Definition targetFrame (firstPage : Page) : Page * Bounds :=
  match textFrames firstPage with
  | f :: _ => (firstPage, f)
  | [] => createFrameInsideMargins firstPage
  end.

(** Lines 32-33: the file placed in the target frame.  The story holds
    [amount] units of text and has that frame as its only container. *)
Definition placed (firstPage : Page) (otherPages : list Page) (amount : nat)
  : State :=
  let '(pg, frame) := targetFrame firstPage in
  {| pages := pg :: otherPages; content := amount;
     textContainers := [{| onPage := 0; geometricBounds := frame |}] |}.

(** A 30 x 40 page with margins of 5, and a story of three frames' worth of
    text placed on it. *)
Definition samplePage : Page := pageOf 40 30 5.

Definition threeFrames : State :=
  placed samplePage [] (3 * areaCapacity (insideMargins samplePage)).

(** A page whose margins take all of it, and a story of one unit of text. *)
Definition marginsOnlyPage : Page := pageOf 100 100 50.

Definition oneUnit : State := placed marginsOnlyPage [] 1.

End Pagination.

(** ** Content sanitizer (steps 5 to 7 of the script)

    Only paragraph contents matter to this stage: a story is the list of its
    paragraphs' contents, each without its trailing return.  The story text
    the GREP command works on is the paragraphs in order, each followed by a
    return (code unit 13). *)

Module Sanitizer.
Import JsString.

Definition storyText (ps : list jsstring) : jsstring :=
  flat_map (fun p => p ++ [CR]) ps.

(** The host's division of story text into paragraphs: a return ends the
    current paragraph; text after the last return is a last paragraph
    without terminator. *)
Fixpoint paragraphsOf (t : jsstring) : list jsstring :=
  match t with
  | [] => []
  | c :: t' =>
      if c =? CR then [] :: paragraphsOf t'
      else match paragraphsOf t' with
           | [] => [[c]]
           | p :: ps => (c :: p) :: ps
           end
  end.

Section ChangeGrep.

(** [findWhat = "(\\r){minRun,}"], [changeTo = repl]: every maximal run of at
    least [minRun] returns is replaced by [repl]. *)
Variable minRun : nat.
Variable repl : jsstring.

Definition flushRun (run : nat) : jsstring :=
  if (minRun <=? run)%nat then repl else repeat CR run.

(** [run] counts the returns of the run being scanned. *)
Fixpoint changeGrepFrom (run : nat) (t : jsstring) : jsstring :=
  match t with
  | [] => flushRun run
  | c :: t' =>
      if c =? CR then changeGrepFrom (S run) t'
      else flushRun run ++ c :: changeGrepFrom 0 t'
  end.

Definition changeGrep (t : jsstring) : jsstring := changeGrepFrom 0 t.

End ChangeGrep.

(** Step 5, lines 44-52: [(\r){3,}] becomes [\r\r]. *)
Definition collapseReturns (t : jsstring) : jsstring :=
  changeGrep 3 [CR; CR] t.

(** Step 7 of the later revisions: [(\r){2,}] becomes [\r]. *)
Definition collapseReturnsSingle (t : jsstring) : jsstring :=
  changeGrep 2 [CR] t.

(** Step 6, lines 55-59: [findWhat = "(?<=Heading 1)(?=Heading 2)"] with the
    change preferences reset just before and [changeTo] never set.  The
    pattern matches empty positions only and nothing is put there: the text
    is unchanged. *)
Definition insertHeadingBreaks (t : jsstring) : jsstring := t.

(** Step 7, lines 62-68:
    [for (i = 0; i < story.paragraphs.length; i++) {
       p.contents = p.contents.replace(/^\s+|\s+$/g, "");
       if (p.contents.replace(/\s/g, "") === "") { p.remove(); i--; } }]
    The collection is live: its length is read again at every test, and
    removing paragraph [i] moves the following ones down by one. *)
Equations? trimLoop (i : nat) (ps : list jsstring) : list jsstring
  by wf (length ps - i)%nat lt :=
  trimLoop i ps with decide (i < length ps)%nat => {
    | right _ := ps;
    | left Hlt with isBlank (trim (nth i ps [])) => {
        | true := trimLoop i (delete i ps);
        | false := trimLoop (S i) (<[i := trim (nth i ps [])]> ps) } }.
Proof.
  - rewrite length_delete by (apply lookup_lt_is_Some_2; exact Hlt). lia.
  - rewrite length_insert. lia.
Qed.

Definition trimAndPrune (ps : list jsstring) : list jsstring := trimLoop 0 ps.

(** The whole stage on the paragraphs of a story. *)
Definition sanitize (ps : list jsstring) : list jsstring :=
  trimAndPrune
    (paragraphsOf (insertHeadingBreaks (collapseReturns (storyText ps)))).

(** The collapse step alone, seen on paragraphs. *)
Definition collapseParagraphs (ps : list jsstring) : list jsstring :=
  paragraphsOf (collapseReturns (storyText ps)).

Definition kept (c : jsstring) : Prop := isBlank c = false.

#[local] Instance kept_dec c : Decision (kept c).
Proof. unfold kept. apply _. Defined.

(** The later revisions (lines 583-595, 785-805) collapse with
    [(\r){2,}] to [\r] before the same loop. *)
Definition sanitizeSingle (ps : list jsstring) : list jsstring :=
  trimAndPrune (paragraphsOf (collapseReturnsSingle (storyText ps))).

(** Number of blank paragraphs of a story. *)
Definition blankParagraphs (ps : list jsstring) : nat :=
  length (List.filter isBlank ps).

End Sanitizer.

(** ** Paragraphs and paragraph styles of the host document *)

Module Document.
Import JsString.

(** A paragraph style of the document: its name and the host's id of the
    style object. *)
Record ParagraphStyle := { name : jsstring; styleId : nat }.

(** [ListType] of the host. *)
Inductive ListType := NO_LIST | BULLET_LIST | NUMBERED_LIST.

Definition isBulletList (t : ListType) : bool :=
  match t with
  | BULLET_LIST => true
  | _ => false
  end.

Record Paragraph := {
  contents : jsstring;
  appliedParagraphStyle : option ParagraphStyle;
  leftIndent : float;
  bulletsAndNumberingListType : ListType;
  overrides : bool     (* local formatting overrides are present *)
}.

(** [doc.paragraphStyles]: name to style; a lookup may miss. *)
Abbreviation StyleRegistry := (gmap (list N) ParagraphStyle).

(** [getStyle(docRef, name)]: the style, or [null] (lines 71-73). *)
Definition getStyle (docRef : StyleRegistry) (styleName : jsstring)
  : option ParagraphStyle :=
  docRef !! styleName.

(** The [styles] object.  A property a revision does not define reads as
    [undefined]: it is [None] here. *)
Record Styles := {
  body : option ParagraphStyle;
  h1 : option ParagraphStyle;
  h2 : option ParagraphStyle;
  h3 : option ParagraphStyle;
  h4 : option ParagraphStyle;
  h5 : option ParagraphStyle;
  h6 : option ParagraphStyle;
  bullet : option ParagraphStyle;
  subBullet : option ParagraphStyle;
  table : option ParagraphStyle;
  numbered : option ParagraphStyle
}.

(** Lines 74-83. *)
Definition gatherStylesH3 (doc : StyleRegistry) : Styles :=
  {| body := getStyle doc (str "Body");
     h1 := getStyle doc (str "Heading 1");
     h2 := getStyle doc (str "Heading 2");
     h3 := getStyle doc (str "Heading 3");
     h4 := None; h5 := None; h6 := None;
     bullet := getStyle doc (str "Bullets");
     subBullet := getStyle doc (str "Sub-Bullets");
     table := getStyle doc (str "Table Style 1");
     numbered := getStyle doc (str "Numbered") |}.

(** Lines 604-615. *)
Definition gatherStylesH6 (doc : StyleRegistry) : Styles :=
  {| body := getStyle doc (str "Body");
     h1 := getStyle doc (str "Heading 1");
     h2 := getStyle doc (str "Heading 2");
     h3 := getStyle doc (str "Heading 3");
     h4 := getStyle doc (str "Heading 4");
     h5 := getStyle doc (str "Heading 5");
     h6 := getStyle doc (str "Heading 6");
     bullet := getStyle doc (str "Bullets");
     subBullet := getStyle doc (str "Sub-Bullets");
     table := getStyle doc (str "Table Style 1");
     numbered := None |}.

(** Truthiness of a style reference. *)
Definition registered (s : option ParagraphStyle) : bool :=
  match s with
  | Some _ => true
  | None => false
  end.

(** [try { srcName = para.appliedParagraphStyle.name || ""; } catch (_) {}] *)
Definition srcNameOf (p : Paragraph) : jsstring :=
  match appliedParagraphStyle p with
  | Some s => name s
  | None => []
  end.

(** [p.appliedParagraphStyle = s] *)
Definition setStyle (s : option ParagraphStyle) (p : Paragraph) : Paragraph :=
  {| contents := contents p;
     appliedParagraphStyle := s;
     leftIndent := leftIndent p;
     bulletsAndNumberingListType := bulletsAndNumberingListType p;
     overrides := overrides p |}.

(** [p.contents = c] *)
Definition setContents (c : jsstring) (p : Paragraph) : Paragraph :=
  {| contents := c;
     appliedParagraphStyle := appliedParagraphStyle p;
     leftIndent := leftIndent p;
     bulletsAndNumberingListType := bulletsAndNumberingListType p;
     overrides := overrides p |}.

(** [p.bulletsAndNumberingListType = t] *)
Definition setListType (t : ListType) (p : Paragraph) : Paragraph :=
  {| contents := contents p;
     appliedParagraphStyle := appliedParagraphStyle p;
     leftIndent := leftIndent p;
     bulletsAndNumberingListType := t;
     overrides := overrides p |}.

(** [p.clearOverrides()] *)
Definition clearOverrides (p : Paragraph) : Paragraph :=
  {| contents := contents p;
     appliedParagraphStyle := appliedParagraphStyle p;
     leftIndent := leftIndent p;
     bulletsAndNumberingListType := bulletsAndNumberingListType p;
     overrides := false |}.

End Document.

(** ** Style classifier, pass A: heading and body mapping *)

Module StyleMapping.
Import JsString Document.

(** Lines 618-633 (and 828-843), one paragraph:
    [if (/Normal/i.test(srcName) && styles.body) ... = styles.body;
     else if (/Heading 1/i.test(srcName) && styles.h1) ... = styles.h1;
     ...
     else if (styles.body) para.appliedParagraphStyle = styles.body;
     try { para.clearOverrides(); } catch (_) {}] *)
Definition mapStyleH6 (styles : Styles) (para : Paragraph) : Paragraph :=
  let srcName := srcNameOf para in
  clearOverrides
    (if icontains (str "Normal") srcName && registered (body styles)
     then setStyle (body styles) para
     else if icontains (str "Heading 1") srcName && registered (h1 styles)
     then setStyle (h1 styles) para
     else if icontains (str "Heading 2") srcName && registered (h2 styles)
     then setStyle (h2 styles) para
     else if icontains (str "Heading 3") srcName && registered (h3 styles)
     then setStyle (h3 styles) para
     else if icontains (str "Heading 4") srcName && registered (h4 styles)
     then setStyle (h4 styles) para
     else if icontains (str "Heading 5") srcName && registered (h5 styles)
     then setStyle (h5 styles) para
     else if icontains (str "Heading 6") srcName && registered (h6 styles)
     then setStyle (h6 styles) para
     else if registered (body styles)
     then setStyle (body styles) para
     else para).

(** Lines 86-98 (and 258-270), one paragraph: headings 1 to 3 first, then
    Normal, then the body fallback. *)
Definition mapStyleH3 (styles : Styles) (para : Paragraph) : Paragraph :=
  let srcName := srcNameOf para in
  clearOverrides
    (if icontains (str "Heading 1") srcName && registered (h1 styles)
     then setStyle (h1 styles) para
     else if icontains (str "Heading 2") srcName && registered (h2 styles)
     then setStyle (h2 styles) para
     else if icontains (str "Heading 3") srcName && registered (h3 styles)
     then setStyle (h3 styles) para
     else if icontains (str "Normal") srcName && registered (body styles)
     then setStyle (body styles) para
     else if registered (body styles)
     then setStyle (body styles) para
     else para).

(** The two revisions of the mapping loop. *)
Inductive Revision := HeadingsToH3 | HeadingsToH6.

Definition mapStyle (rev : Revision) : Styles -> Paragraph -> Paragraph :=
  match rev with
  | HeadingsToH3 => mapStyleH3
  | HeadingsToH6 => mapStyleH6
  end.

(** [for (j = 0; j < story.paragraphs.length; j++) { ... }]: every
    paragraph in turn; none is added or removed. *)
Definition applyStyleMapping (rev : Revision) (styles : Styles)
    (paragraphs : list Paragraph) : list Paragraph :=
  map (mapStyle rev styles) paragraphs.

(** The chain read as an ordered table of rules: a name pattern and the
    style reference it maps to. *)
Definition Rule : Type := jsstring * option ParagraphStyle.

Definition fires (srcName : jsstring) (r : Rule) : bool :=
  icontains (fst r) srcName && registered (snd r).

Definition headingRules (rev : Revision) (styles : Styles) : list Rule :=
  match rev with
  | HeadingsToH3 =>
      [(str "Heading 1", h1 styles); (str "Heading 2", h2 styles);
       (str "Heading 3", h3 styles)]
  | HeadingsToH6 =>
      [(str "Heading 1", h1 styles); (str "Heading 2", h2 styles);
       (str "Heading 3", h3 styles); (str "Heading 4", h4 styles);
       (str "Heading 5", h5 styles); (str "Heading 6", h6 styles)]
  end.

Definition ruleChain (rev : Revision) (styles : Styles) : list Rule :=
  match rev with
  | HeadingsToH3 => headingRules rev styles ++ [(str "Normal", body styles)]
  | HeadingsToH6 => (str "Normal", body styles) :: headingRules rev styles
  end.

(** First rule that fires wins; when none does, the body style if it is
    registered; otherwise the paragraph keeps its style. *)
Definition chainOutcome (rules : list Rule) (fallback : option ParagraphStyle)
    (para : Paragraph) : Paragraph :=
  match List.find (fires (srcNameOf para)) rules with
  | Some r => setStyle (snd r) para
  | None => if registered fallback then setStyle fallback para else para
  end.

(** A document with "Body" but no "Heading 3", and a paragraph whose
    imported style is named "Heading 3 Char". *)
Definition importedHeading : ParagraphStyle :=
  {| name := str "Heading 3 Char"; styleId := 7 |}.

Definition bodyStyle : ParagraphStyle := {| name := str "Body"; styleId := 1 |}.

Definition bodyOnlyDocument : StyleRegistry :=
  <[str "Body" := bodyStyle]>
    (<[str "Heading 3 Char" := importedHeading]> ∅).

Definition headingParagraph : Paragraph :=
  {| contents := str "Scope of work";
     appliedParagraphStyle := Some importedHeading;
     leftIndent := 0;
     bulletsAndNumberingListType := NO_LIST;
     overrides := true |}.

End StyleMapping.

(** ** Style classifier, pass B: bullets and lists *)

Module Bullets.
Import JsString Document.

(** Code units of the glyphs the script names. *)
Definition BULLET : N := 0x2022.          (* filled bullet *)
Definition BLACK_CIRCLE : N := 0x25CF.
Definition WHITE_BULLET : N := 0x25E6.    (* small open circle *)
Definition SYMBOL_BULLET : N := 0xF0B7.   (* bullet of the Symbol font *)
Definition BULLET_OPERATOR : N := 0x2219.
Definition MIDDLE_DOT : N := 0xB7.
Definition WHITE_CIRCLE : N := 0x25CB.    (* open circle *)
Definition LOWER_O : N := 111.
Definition HYPHEN : N := 45.
Definition EN_DASH : N := 0x2013.

Definition inClass (cls : list N) (c : N) : bool := existsb (N.eqb c) cls.

(** The class of [glyphRE] (lines 103 and 277). *)
Definition isGlyph : N -> bool :=
  inClass [BULLET; BLACK_CIRCLE; WHITE_BULLET; SYMBOL_BULLET; BULLET_OPERATOR;
           MIDDLE_DOT; WHITE_CIRCLE; WHITE_BULLET; LOWER_O; HYPHEN; EN_DASH;
           BULLET].

(** The class of [primaryBulletRE] (line 641). *)
Definition isPrimaryGlyph : N -> bool :=
  inClass [BULLET; BLACK_CIRCLE; WHITE_BULLET; SYMBOL_BULLET; BULLET_OPERATOR;
           MIDDLE_DOT].

(** The class of [subBulletGlyphRE] (line 643). *)
Definition isSubGlyph : N -> bool :=
  inClass [WHITE_CIRCLE; WHITE_BULLET; LOWER_O].

(** The class of [dashBulletRE] (line 646). *)
Definition isDash : N -> bool := inClass [HYPHEN; EN_DASH].

(** A match of an anchored pattern: what follows it in the subject. *)

(** [/^[glyphs]+\s*\t?/] *)
Definition glyphRE (txt : jsstring) : option jsstring :=
  match many1 isGlyph txt with
  | Some r => Some (optTab (many isSpace r))
  | None => None
  end.

(** [/^[primary]\s*\t?/] *)
Definition primaryBulletRE (txt : jsstring) : option jsstring :=
  match oneOf isPrimaryGlyph txt with
  | Some r => Some (optTab (many isSpace r))
  | None => None
  end.

(** [/^[sub]\s*\t?/] *)
Definition subBulletGlyphRE (txt : jsstring) : option jsstring :=
  match oneOf isSubGlyph txt with
  | Some r => Some (optTab (many isSpace r))
  | None => None
  end.

(** [/^[\-–]\s+\t?/] *)
Definition dashBulletRE (txt : jsstring) : option jsstring :=
  match oneOf isDash txt with
  | Some r =>
      match many1 isSpace r with
      | Some r' => Some (optTab r')
      | None => None
      end
  | None => None
  end.

(** [re.test(txt)] *)
Definition test (re : jsstring -> option jsstring) (txt : jsstring) : bool :=
  match re txt with
  | Some _ => true
  | None => false
  end.

(** [txt.replace(re, "")] *)
Definition replaceFirst (re : jsstring -> option jsstring) (txt : jsstring)
  : jsstring :=
  match re txt with
  | Some r => r
  | None => txt
  end.

(** *** [normalizeBullets] (lines 637-680 and 846-880) *)

Definition asBullet (style : option ParagraphStyle) (newContents : jsstring)
    (pp : Paragraph) : Paragraph :=
  clearOverrides
    (setListType BULLET_LIST (setStyle style (setContents newContents pp))).

Definition normalizeBullet (styles : Styles) (pp : Paragraph) : Paragraph :=
  let txt := contents pp in
  (* Sub-bullets first (so they don't get captured by primary) *)
  if registered (subBullet styles) && test subBulletGlyphRE txt
  then asBullet (subBullet styles) (replaceFirst subBulletGlyphRE txt) pp
  (* Primary bullets via glyphs *)
  else if registered (bullet styles) && test primaryBulletRE txt
  then asBullet (bullet styles) (replaceFirst primaryBulletRE txt) pp
  (* Optional: treat dash-started lines as bullets *)
  else if registered (bullet styles) && test dashBulletRE txt
  then asBullet (bullet styles) (replaceFirst dashBulletRE txt) pp
  else pp.

Definition normalizeBullets (styles : Styles) (paras : list Paragraph)
  : list Paragraph :=
  map (normalizeBullet styles) paras.

(** *** [normalizeBulletsAndLists], "tightened detection" (lines 101-127) *)

(** [/Heading|Table/i.test(srcName)] *)
Definition namesHeadingOrTable (srcName : jsstring) : bool :=
  icontains (str "Heading") srcName || icontains (str "Table") srcName.

(** When "Bullets" is not registered the script assigns [null] here; what
    the host does with that assignment is not modelled, and nothing below
    is stated for that case. *)
Definition tightenedStep (styles : Styles) (p : Paragraph) : Paragraph :=
  let txt := rtrim (contents p) in
  let srcName := srcNameOf p in
  if namesHeadingOrTable srcName then p
  else
    let hasGlyph := test glyphRE txt in
    let hasIndent := (0 <? leftIndent p)%float in
    let isTrueList := isBulletList (bulletsAndNumberingListType p) in
    if isTrueList || hasGlyph || hasIndent
    then asBullet (bullet styles) (replaceFirst glyphRE txt) p
    else p.

Definition normalizeBulletsAndListsTightened (styles : Styles)
    (paras : list Paragraph) : list Paragraph :=
  map (tightenedStep styles) paras.

(** *** [normalizeBulletsAndLists], "tab-only + style-aware"
    (lines 273-321) *)

(** [/^heading\s*\d+$/i.test(sn) || /^table/i.test(sn)] *)
Definition isHeadingOrTable (p : Paragraph) : bool :=
  let sn := srcNameOf p in
  match iprefix (str "heading") sn with
  | Some r =>
      match many1 isDigit (many isSpace r) with
      | Some [] => true
      | _ => false
      end
  | None => false
  end
  || match iprefix (str "table") sn with
     | Some _ => true
     | None => false
     end.

(** [looksListyStyle(p)]: [/list|bullet/i.test(n)] *)
Definition looksListyStyle (p : Paragraph) : bool :=
  let n := srcNameOf p in
  icontains (str "list") n || icontains (str "bullet") n.

Definition txtOf (p : Paragraph) : jsstring := rtrim (contents p).

(** [startsWithTab && (styleIsListy || prevWasBullet)] *)
Definition contextual (prevWasBullet : bool) (p : Paragraph) : bool :=
  startsWithTab (txtOf p) && (looksListyStyle p || prevWasBullet).

(** [isTrueList || hasGlyph || (startsWithTab && (styleIsListy || prevWasBullet))] *)
Definition shouldBeBullet (prevWasBullet : bool) (p : Paragraph) : bool :=
  isBulletList (bulletsAndNumberingListType p)
  || test glyphRE (txtOf p)
  || contextual prevWasBullet p.

(** [styles.bullet || p.appliedParagraphStyle] *)
Definition bulletOrCurrent (styles : Styles) (p : Paragraph)
  : option ParagraphStyle :=
  match bullet styles with
  | Some b => Some b
  | None => appliedParagraphStyle p
  end.

(** [txt.replace(glyphRE, "").replace(/^\t+/, "")] *)
Definition stripGlyphsAndTabs (txt : jsstring) : jsstring :=
  many (N.eqb TAB) (replaceFirst glyphRE txt).

(** One turn of the loop: the paragraph it leaves and the new value of
    [prevWasBullet]. *)
Definition listStep (styles : Styles) (prevWasBullet : bool) (p : Paragraph)
  : Paragraph * bool :=
  if isHeadingOrTable p then (p, false)
  else if shouldBeBullet prevWasBullet p
  then (asBullet (bulletOrCurrent styles p) (stripGlyphsAndTabs (txtOf p)) p,
        true)
  else (p, false).

(** The loop from a given value of the flag: the paragraphs it leaves and
    the final value of the flag. *)
Fixpoint listLoop (styles : Styles) (prevWasBullet : bool)
    (paras : list Paragraph) : list Paragraph * bool :=
  match paras with
  | [] => ([], prevWasBullet)
  | p :: paras' =>
      let '(p', prev') := listStep styles prevWasBullet p in
      let '(rest, final) := listLoop styles prev' paras' in
      (p' :: rest, final)
  end.

(** [var prevWasBullet = false; for (...) { ... }] *)
Definition normalizeBulletsAndLists (styles : Styles) (paras : list Paragraph)
  : list Paragraph :=
  fst (listLoop styles false paras).

(** The value of [prevWasBullet] on entry to turn [k] of the loop. *)
Definition flagAt (styles : Styles) (paras : list Paragraph) (k : nat) : bool :=
  snd (listLoop styles false (take k paras)).

(** Sample data. *)
Definition bulletsStyle : ParagraphStyle :=
  {| name := str "Bullets"; styleId := 2 |}.

Definition subBulletsStyle : ParagraphStyle :=
  {| name := str "Sub-Bullets"; styleId := 3 |}.

Definition bodyText : ParagraphStyle := {| name := str "Body"; styleId := 1 |}.

Definition listParagraph : ParagraphStyle :=
  {| name := str "List Paragraph"; styleId := 4 |}.

Definition headingTwo : ParagraphStyle :=
  {| name := str "Heading 2"; styleId := 5 |}.

Definition sampleStyles : Styles :=
  {| body := Some bodyText; h1 := None; h2 := Some headingTwo; h3 := None;
     h4 := None; h5 := None; h6 := None;
     bullet := Some bulletsStyle; subBullet := Some subBulletsStyle;
     table := None; numbered := None |}.

Definition plain (style : ParagraphStyle) (text : jsstring) : Paragraph :=
  {| contents := text; appliedParagraphStyle := Some style; leftIndent := 0;
     bulletsAndNumberingListType := NO_LIST; overrides := false |}.

End Bullets.

(** ** Hyperlink classifier (step 12, lines 136-160) *)

Module Hyperlinks.
Import JsString.

Record CharacterStyle := { styleName : jsstring; characterStyleId : nat }.

(** [link.destination]: a [HyperlinkURLDestination], an object of another
    class (page, text anchor, ...) that may carry a [destinationURL]
    property, or nothing. *)
Inductive Destination :=
| HyperlinkURLDestination (destinationURL : jsstring)
| OtherDestination (destinationURL : option jsstring)
| NoDestination.

(** [src.sourceText]: a range of text. *)
Record Text := { length : nat; appliedCharacterStyle : option CharacterStyle }.

(** [link.source]: a [HyperlinkTextSource] with its text (possibly none),
    or a source of another class (page item, ...). *)
Inductive Source :=
| HyperlinkTextSource (sourceText : option Text)
| OtherSource.

Record Hyperlink := { destination : Destination; source : Source }.

(** [/^(https?:|mailto:|ftp:)/i.test(u)] *)
Definition hasUrlScheme (u : jsstring) : bool :=
  match iprefix (str "http") u with
  | Some r =>
      match iprefix (str ":") r with
      | Some _ => true
      | None =>
          match iprefix (str "s:") r with
          | Some _ => true
          | None => false
          end
      end
  | None => false
  end
  || match iprefix (str "mailto:") u with
     | Some _ => true
     | None => false
     end
  || match iprefix (str "ftp:") u with
     | Some _ => true
     | None => false
     end.

(** [d && d.destinationURL ? String(d.destinationURL) : ""]; an empty
    address is falsy and gives the empty string as well. *)
Definition urlOf (d : Destination) : jsstring :=
  match d with
  | HyperlinkURLDestination u => u
  | OtherDestination (Some u) => u
  | OtherDestination None => []
  | NoDestination => []
  end.

(** Lines 142-146:
    [try { if (d instanceof HyperlinkURLDestination) return true; } catch (_) {}
     var u = ...;
     return /^(https?:|mailto:|ftp:)/i.test(u);] *)
Definition isUrlDest (d : Destination) : bool :=
  match d with
  | HyperlinkURLDestination _ => true
  | _ => hasUrlScheme (urlOf d)
  end.

(** [text.appliedCharacterStyle = hyperlinkStyle] *)
Definition setCharacterStyle (s : CharacterStyle) (t : Text) : Text :=
  {| length := length t; appliedCharacterStyle := Some s |}.

(** The body of the loop for one link (lines 150-158). *)
Definition styleLink (hyperlinkStyle : CharacterStyle) (link : Hyperlink)
  : Hyperlink :=
  if negb (isUrlDest (destination link)) then link
  else
    match source link with
    | HyperlinkTextSource (Some text) =>
        if (0 <? length text)%nat
        then {| destination := destination link;
                source := HyperlinkTextSource
                            (Some (setCharacterStyle hyperlinkStyle text)) |}
        else link
    | HyperlinkTextSource None => link
    | OtherSource => link
    end.

(** [doc.characterStyles] *)
Abbreviation CharacterStyles := (gmap (list N) CharacterStyle).

Definition hyperlinkStyleName : jsstring := str "Hyperlink Highlight".

(** Lines 137-160: the style is looked up by name; a miss leaves
    [hyperlinkStyle] null and the loop is not entered. *)
Definition applyHyperlinkStyle (characterStyles : CharacterStyles)
    (hyperlinks : list Hyperlink) : list Hyperlink :=
  match characterStyles !! hyperlinkStyleName with
  | Some hyperlinkStyle =>
      if (0 <? List.length hyperlinks)%nat
      then map (styleLink hyperlinkStyle) hyperlinks
      else hyperlinks
  | None => hyperlinks
  end.

(** The specification's words: a literal external URL is a destination of
    the URL class, or one whose address begins with a recognized scheme. *)
Definition schemes : list jsstring :=
  [str "http"; str "https"; str "mailto"; str "ftp"].

Definition beginsWithScheme (u : jsstring) : Prop :=
  exists scheme rest, scheme ∈ schemes /\ iprefix (scheme ++ str ":") u = Some rest.




(** Sample data. *)
Definition highlight : CharacterStyle :=
  {| styleName := str "Hyperlink Highlight"; characterStyleId := 9 |}.

Definition sampleCharacterStyles : CharacterStyles :=
  <[str "Hyperlink Highlight" := highlight]> ∅.

Definition webLink : Hyperlink :=
  {| destination := OtherDestination (Some (str "https://example.com"));
     source := HyperlinkTextSource
                 (Some {| length := 11; appliedCharacterStyle := None |}) |}.

Definition anchorLink : Hyperlink :=
  {| destination := OtherDestination None;
     source := HyperlinkTextSource
                 (Some {| length := 4; appliedCharacterStyle := None |}) |}.

End Hyperlinks.

(** ** Further code of the script and observations on it *)

Module Returns.
Import JsString.

(** Every maximal run of returns of the text is shorter than [k]; [run]
    counts the returns just before the text. *)
Fixpoint runsBelow (k run : nat) (t : jsstring) : bool :=
  match t with
  | [] => (run <? k)%nat
  | c :: t' =>
      if c =? CR then runsBelow k (S run) t'
      else (run <? k)%nat && runsBelow k 0 t'
  end.

(** A paragraph that is not empty. *)
Definition filled (p : jsstring) : Prop := p <> [].

#[global] Instance filled_dec p : Decision (filled p).
Proof. unfold filled. apply _. Defined.

(** Two lists of paragraphs with the same first paragraph and the same
    non-empty paragraphs after it. *)
Definition alike (l1 l2 : list jsstring) : Prop :=
  hd [] l1 = hd [] l2 /\ filter filled (tl l1) = filter filled (tl l2).

End Returns.

Module StyleNames.
Import JsString Document.

(** Every style of the [styles] object bears the name it was looked up
    under, as [itemByName] gives it. *)
Definition stylesNamed (styles : Styles) : Prop :=
  (forall s, body styles = Some s -> name s = str "Body")
  /\ (forall s, h1 styles = Some s -> name s = str "Heading 1")
  /\ (forall s, h2 styles = Some s -> name s = str "Heading 2")
  /\ (forall s, h3 styles = Some s -> name s = str "Heading 3")
  /\ (forall s, h4 styles = Some s -> name s = str "Heading 4")
  /\ (forall s, h5 styles = Some s -> name s = str "Heading 5")
  /\ (forall s, h6 styles = Some s -> name s = str "Heading 6").

(** A registry that files every style under its own name. *)
Definition namesAreKeys (doc : StyleRegistry) : Prop :=
  forall k s, doc !! k = Some s -> name s = k.

End StyleNames.

(** The first bullet step of the script (lines 473-492): a black circle or
    a white circle followed by a tab. *)
Module BulletsSimple.
Import JsString Document Bullets.

(** [/^●\t/] and [/^○\t/] *)
Definition glyphTab (glyph : N) (text : jsstring) : option jsstring :=
  match text with
  | c :: t :: r => if (c =? glyph) && (t =? TAB) then Some r else None
  | _ => None
  end.

(** [para.contents = ...; para.appliedParagraphStyle = style;
     para.clearOverrides();] *)
Definition restyle (style : option ParagraphStyle) (newContents : jsstring)
    (para : Paragraph) : Paragraph :=
  clearOverrides (setStyle style (setContents newContents para)).

Definition applyBullet (bulletStyle subBulletStyle : option ParagraphStyle)
    (para : Paragraph) : Paragraph :=
  let text := contents para in
  if test (glyphTab BLACK_CIRCLE) text && registered bulletStyle
  then restyle bulletStyle (replaceFirst (glyphTab BLACK_CIRCLE) text) para
  else if test (glyphTab WHITE_CIRCLE) text && registered subBulletStyle
  then restyle subBulletStyle (replaceFirst (glyphTab WHITE_CIRCLE) text) para
  else para.

Definition applyBullets (bulletStyle subBulletStyle : option ParagraphStyle)
    (paragraphs : list Paragraph) : list Paragraph :=
  map (applyBullet bulletStyle subBulletStyle) paragraphs.

End BulletsSimple.

(** The hyperlink loop in the other revisions of the script. *)
Module HyperlinkRevisions.
Import JsString Hyperlinks.

(** Lines 704-709: every text source is styled; there is no test of the
    destination or of the length.  A text source without text makes the
    assignment fail, which the handler of the loop catches: the link is left
    as it is. *)
Definition styleLinkAny (hyperlinkStyle : CharacterStyle) (link : Hyperlink)
  : Hyperlink :=
  match source link with
  | HyperlinkTextSource (Some text) =>
      {| destination := destination link;
         source := HyperlinkTextSource
                     (Some (setCharacterStyle hyperlinkStyle text)) |}
  | HyperlinkTextSource None => link
  | OtherSource => link
  end.

(** [link.destination instanceof HyperlinkURLDestination] *)
Definition isUrlClass (d : Destination) : bool :=
  match d with
  | HyperlinkURLDestination _ => true
  | _ => false
  end.

(** Lines 903-913: only destinations of the URL class; then as in lines
    153-157. *)
Definition styleLinkUrlClass (hyperlinkStyle : CharacterStyle)
    (link : Hyperlink) : Hyperlink :=
  if negb (isUrlClass (destination link)) then link
  else
    match source link with
    | HyperlinkTextSource (Some text) =>
        if (0 <? length text)%nat
        then {| destination := destination link;
                source := HyperlinkTextSource
                            (Some (setCharacterStyle hyperlinkStyle text)) |}
        else link
    | HyperlinkTextSource None => link
    | OtherSource => link
    end.

End HyperlinkRevisions.

Module JsStringFacts.
Import JsString Shape.

(** *** Samples *)

Example trim_sample : trim (str "  a b " ++ [TAB; CR]) = str "a b".
Proof. reflexivity. Qed.

Example icontains_sample :
  icontains (str "Heading 1") (str "my heading 10") = true
  /\ icontains (str "Heading 1") (str "Heading 2") = false.
Proof. split; reflexivity. Qed.

(** *** Trimming facts *)

Lemma many_idem cls s : many cls (many cls s) = many cls s.
Proof.
  induction s as [|c s IH]; simpl; [reflexivity|].
  destruct (cls c) eqn:E; [exact IH|]. simpl. now rewrite E.
Qed.

Lemma many_head cls s c r : many cls s = c :: r -> cls c = false.
Proof.
  induction s as [|d s IH]; simpl; [discriminate|].
  destruct (cls d) eqn:E; [exact IH|]. intros [= <- <-]. exact E.
Qed.

Lemma many_fixed cls c s : cls c = false -> many cls (c :: s) = c :: s.
Proof. intros H. simpl. now rewrite H. Qed.

Lemma rtrim_head c s :
  isSpace c = false -> exists r, rtrim (c :: s) = c :: r.
Proof.
  intros H. simpl. rewrite H. destruct (rtrim s); eauto.
Qed.

Lemma rtrim_idem s : rtrim (rtrim s) = rtrim s.
Proof.
  induction s as [|c s IH]; simpl; [reflexivity|].
  destruct (rtrim s) as [|d r] eqn:E.
  - destruct (isSpace c) eqn:Ec; simpl; [reflexivity|]. now rewrite Ec.
  - simpl in *. now rewrite IH.
Qed.

Lemma rtrim_nil_blank s : rtrim s = [] -> isBlank s = true.
Proof.
  unfold isBlank. induction s as [|c s IH]; simpl; [reflexivity|].
  destruct (rtrim s) eqn:E; [|discriminate].
  destruct (isSpace c); [intros _; now apply IH|discriminate].
Qed.

Lemma removeSpaces_many s : removeSpaces (many isSpace s) = removeSpaces s.
Proof.
  induction s as [|c s IH]; simpl; [reflexivity|].
  destruct (isSpace c) eqn:E; [exact IH|]. simpl. now rewrite E.
Qed.

Lemma removeSpaces_rtrim s : removeSpaces (rtrim s) = removeSpaces s.
Proof.
  induction s as [|c s IH]; simpl; [reflexivity|].
  destruct (rtrim s) as [|d r] eqn:E.
  - simpl in IH. destruct (isSpace c) eqn:Ec; simpl; rewrite ?Ec, <- IH; reflexivity.
  - change (removeSpaces (c :: d :: r)) with
      (if isSpace c then removeSpaces (d :: r) else c :: removeSpaces (d :: r)).
    now rewrite IH.
Qed.

Lemma removeSpaces_trim s : removeSpaces (trim s) = removeSpaces s.
Proof. unfold trim, ltrim. now rewrite removeSpaces_rtrim, removeSpaces_many. Qed.

Lemma isBlank_trim s : isBlank (trim s) = isBlank s.
Proof. unfold isBlank. now rewrite removeSpaces_trim. Qed.

Lemma trim_idem s : trim (trim s) = trim s.
Proof.
  unfold trim, ltrim.
  destruct (many isSpace s) as [|c r] eqn:E; [reflexivity|].
  pose proof (many_head _ _ _ _ E) as Hc.
  destruct (rtrim_head c r Hc) as [r' Hr]. rewrite Hr.
  rewrite many_fixed by exact Hc. rewrite <- Hr. apply rtrim_idem.
Qed.

(** *** What a replacement removes and what it leaves *)

Lemma many_cut cls s : exists d, s = d ++ many cls s /\ allIn cls d = true.
Proof.
  induction s as [|c s (d & IH & Hd)]; simpl; [now exists []|].
  destruct (cls c) eqn:E; [|now exists []].
  exists (c :: d). simpl. rewrite E, Hd. split; [now f_equal | reflexivity].
Qed.

Lemma many_led cls s : ledBy cls (many cls s) = false.
Proof.
  destruct (many cls s) as [|c r] eqn:E; [reflexivity|].
  simpl. exact (many_head _ _ _ _ E).
Qed.

Lemma rtrim_cut s : exists r, s = rtrim s ++ r /\ allIn isSpace r = true.
Proof.
  induction s as [|c s (r & IH & Hr)]; simpl; [now exists []|].
  destruct (rtrim s) as [|d t].
  - simpl in IH. subst r. destruct (isSpace c) eqn:E.
    + exists (c :: s). simpl. now rewrite E, Hr.
    + exists s. now split.
  - exists r. split; [|exact Hr]. simpl. f_equal. exact IH.
Qed.

Lemma rtrim_ended s : endedBy isSpace (rtrim s) = false.
Proof.
  unfold endedBy. induction s as [|c s IH]; simpl; [reflexivity|].
  destruct (rtrim s) as [|d t].
  - destruct (isSpace c) eqn:E; simpl; [reflexivity | exact E].
  - exact IH.
Qed.

Lemma rtrim_led cls s : ledBy cls s = false -> ledBy cls (rtrim s) = false.
Proof.
  destruct s as [|c s]; simpl; [reflexivity|]. intros H.
  destruct (rtrim s); [destruct (isSpace c)|]; simpl; auto.
Qed.

(** What [trim] gives is the subject without the white space at its two
    ends. *)
Lemma trim_trimmedOf p : trimmedOf p (trim p).
Proof.
  unfold trim, ltrim.
  destruct (many_cut isSpace p) as (before & Hp & Hb).
  destruct (rtrim_cut (many isSpace p)) as (after & Hm & Ha).
  exists before, after. split; [now rewrite <- Hm|].
  split; [exact Hb|]. split; [exact Ha|]. split.
  - apply rtrim_led, many_led.
  - apply rtrim_ended.
Qed.

Lemma isBlank_visible s : isBlank s = negb (visible s).
Proof.
  unfold isBlank. induction s as [|c s IH]; simpl; [reflexivity|].
  destruct (isSpace c); simpl; [exact IH | reflexivity].
Qed.

Lemma optTab_unled s : ledBy isSpace s = false -> optTab s = s.
Proof.
  destruct s as [|c s]; simpl; [reflexivity|].
  destruct (N.eqb_spec c TAB) as [->|_]; [discriminate | reflexivity].
Qed.

Lemma tabs_unled s : ledBy isSpace s = false -> many (N.eqb TAB) s = s.
Proof.
  destruct s as [|c s]; [reflexivity|]. cbn [many ledBy].
  destruct (N.eqb_spec TAB c) as [<-|_]; [discriminate | reflexivity].
Qed.

End JsStringFacts.

Module PaginationFacts.
Import Pagination.

Section Host.

Variable newPage : list Page -> Page.
Variable capacity : Bounds -> nat.

#[local] Abbreviation step := (flowStep newPage).
#[local] Abbreviation flow := (flowOversetText newPage capacity).
#[local] Abbreviation shown := (displayed capacity).

Lemma pagesAddAfter_last pg (ps : list Page) :
  pagesAddAfter (length ps - 1) pg ps = ps ++ [pg].
Proof.
  unfold pagesAddAfter. rewrite take_ge, drop_ge by lia. reflexivity.
Qed.

Lemma flowStep_pages st :
  pages (step st)
  = pages st ++ [fst (createFrameInsideMargins (newPage (pages st)))].
Proof. unfold flowStep. simpl. apply pagesAddAfter_last. Qed.

Lemma flowStep_chain st :
  pages st <> [] ->
  textContainers (step st)
  = textContainers st
    ++ [{| onPage := length (pages st);
           geometricBounds := insideMargins (newPage (pages st)) |}].
Proof.
  intros Hp. unfold flowStep. simpl. do 3 f_equal.
  destruct (pages st); [congruence | simpl; lia].
Qed.

Lemma flowStep_content st : content (step st) = content st.
Proof. reflexivity. Qed.

Lemma displayed_app cs c :
  shown (cs ++ [c]) = (shown cs + capacity (geometricBounds c))%nat.
Proof. induction cs as [|d cs IH]; simpl; [lia|]. rewrite IH. lia. Qed.

Lemma StronglySorted_snoc (l : list nat) x :
  StronglySorted lt l -> Forall (fun y => (y < x)%nat) l ->
  StronglySorted lt (l ++ [x]).
Proof.
  induction 1 as [|y l Hl IH Hy]; intros Hx; simpl.
  - repeat constructor.
  - inversion Hx as [|? ? Hyx Hlx]; subst. constructor; [now apply IH|].
    apply Forall_app. split; [exact Hy | now repeat constructor].
Qed.

Lemma flowStep_ordered st :
  pages st <> [] -> chainOrdered st -> chainOrdered (step st).
Proof.
  intros Hp [Hs Hb]. unfold chainOrdered.
  rewrite flowStep_chain, flowStep_pages, length_app by exact Hp. simpl. split.
  - rewrite map_app. simpl. apply StronglySorted_snoc; [exact Hs|].
    apply Forall_map. exact Hb.
  - apply Forall_app. split.
    + eapply Forall_impl; [exact Hb|]. simpl. intros; lia.
    + repeat constructor. simpl. lia.
Qed.

Lemma flowStep_nonempty st : pages (step st) <> [].
Proof. rewrite flowStep_pages. now destruct (pages st). Qed.

Lemma turns_nonempty n st : pages st <> [] -> pages (turns newPage n st) <> [].
Proof. destruct n; [trivial|]. intros _. apply flowStep_nonempty. Qed.

Lemma turns_ordered n st :
  pages st <> [] -> chainOrdered st -> chainOrdered (turns newPage n st).
Proof.
  intros Hp Ho. induction n as [|n IH]; [exact Ho|]. simpl.
  apply flowStep_ordered; [now apply turns_nonempty | exact IH].
Qed.

Lemma turns_shift n st : turns newPage n (step st) = step (turns newPage n st).
Proof. induction n as [|n IH]; simpl; [reflexivity | now rewrite IH]. Qed.

Lemma turns_grown n st : pages st <> [] -> grown st (turns newPage n st) n.
Proof.
  intros Hp. induction n as [|n IH].
  - exists [], []. simpl. rewrite !app_nil_r.
    do 5 (split; [reflexivity|]). intros k c H. now rewrite lookup_nil in H.
  - destruct IH as (added & new & Epg & Ech & Ect & Hla & Hln & Hnew).
    pose proof (turns_nonempty n st Hp) as Hp'.
    set (pg := fst (createFrameInsideMargins (newPage (pages (turns newPage n st))))).
    exists (added ++ [pg]),
      (new ++ [{| onPage := length (pages (turns newPage n st));
                  geometricBounds :=
                    insideMargins (newPage (pages (turns newPage n st))) |}]).
    cbn [turns]. rewrite flowStep_pages, flowStep_chain, flowStep_content by exact Hp'.
    rewrite Epg at 1. rewrite Ech at 1. rewrite <- !app_assoc, !length_app.
    cbn [length].
    split; [reflexivity|]. split; [reflexivity|]. split; [exact Ect|].
    split; [lia|]. split; [lia|].
    intros k c Hk. destruct (decide (k < n)%nat) as [Hlt|Hge].
    + rewrite lookup_app_l in Hk by lia.
      destruct (Hnew k c Hk) as (Hon & pg' & Hpg' & Hb).
      split; [exact Hon|]. exists pg'. rewrite lookup_app_l by lia. auto.
    + rewrite lookup_app_r in Hk by lia.
      destruct (k - length new)%nat as [|m] eqn:Ek; [|destruct m; discriminate].
      injection Hk as <-. simpl. split; [rewrite Epg, length_app; lia|].
      exists pg. rewrite lookup_app_r by lia.
      replace (k - length added)%nat with 0%nat by lia.
      repeat split. subst pg. simpl. apply elem_of_app. right. left.
Qed.

(** The loop is its body repeated while the story overflows. *)
Lemma flow_turns fuel : forall st st',
  flow fuel st = Some st' ->
  exists n, (n <= fuel)%nat /\ st' = turns newPage n st
    /\ (forall k, (k < n)%nat -> overflows capacity (turns newPage k st) = true)
    /\ overflows capacity st' = false.
Proof.
  induction fuel as [|fuel IH]; intros st st'; simpl;
    destruct (overflows capacity st) eqn:Ho; try discriminate.
  - intros [= <-]. exists 0%nat. repeat split; [lia | intros; lia | exact Ho].
  - intros H. destruct (IH _ _ H) as (n & Hn & -> & Hk & Hf).
    exists (S n). simpl. rewrite <- turns_shift. repeat split; [lia | | exact Hf].
    intros [|k] Hlt; [exact Ho|]. simpl. rewrite <- turns_shift. apply Hk. lia.
  - intros [= <-]. exists 0%nat. repeat split; [lia | intros; lia | exact Ho].
Qed.

(** Frames of positive capacity: the missing amount shrinks at each turn. *)
Lemma flow_enough fuel : forall st,
  pages st <> [] ->
  (forall d, (0 < capacity (insideMargins (newPage d)))%nat) ->
  (content st - shown (textContainers st) <= fuel)%nat ->
  exists st', flow fuel st = Some st'.
Proof.
  induction fuel as [|fuel IH]; intros st Hp Hcap Hm; simpl;
    destruct (overflows capacity st) eqn:Ho; eauto;
    unfold overflows in Ho; apply Nat.ltb_lt in Ho; [lia|].
  apply IH; [apply flowStep_nonempty | exact Hcap |].
  rewrite flowStep_chain, flowStep_content, displayed_app by exact Hp. simpl.
  specialize (Hcap (pages st)). lia.
Qed.

(** Frames of no capacity: an overflowing story overflows for ever. *)
Lemma flow_never fuel : forall st,
  pages st <> [] ->
  (forall d, capacity (insideMargins (newPage d)) = 0%nat) ->
  overflows capacity st = true ->
  flow fuel st = None.
Proof.
  induction fuel as [|fuel IH]; intros st Hp Hcap Ho; simpl; rewrite Ho;
    [reflexivity|].
  apply IH; [apply flowStep_nonempty | exact Hcap |].
  unfold overflows in *.
  rewrite flowStep_chain, flowStep_content, displayed_app by exact Hp. simpl.
  rewrite Hcap. now rewrite Nat.add_0_r.
Qed.

End Host.

(** The state the loop starts in has a page and an ordered chain. *)
Lemma placed_ready firstPage otherPages amount :
  pages (placed firstPage otherPages amount) <> []
  /\ chainOrdered (placed firstPage otherPages amount).
Proof.
  unfold placed. destruct (targetFrame firstPage) as [pg frame].
  split; [discriminate|]. split; [repeat constructor|]. constructor; [simpl; lia | constructor].
Qed.

Example three_frames_two_pages :
  exists st',
    flowOversetText (fun _ => samplePage) areaCapacity 5 threeFrames = Some st'
    /\ length (pages st') = 3%nat
    /\ map onPage (textContainers st') = [0; 1; 2]%nat
    /\ overflows areaCapacity st' = false.
Proof. eexists. split; [vm_compute; reflexivity|]. now vm_compute. Qed.

(** *** The properties of the stage *)

(** C1. Pagination loop (lines 36-41), started with at least one page and an
    ordered chain.  Whenever the loop ends, the final state is the start
    state after n turns of the body, the story overflowed before each of them
    and does not overflow at the end; each turn appended one page after the
    last page and one container, inside that page's margins, to the chain;
    the bounds of each new container are the bounds of its page moved
    inwards by the margins of that page; every container lies on a page
    strictly after its predecessor's.  No turn removes a page.  The loop does end when every frame it creates has
    positive capacity. *)
Theorem pagination_flow
    (newPage : list Page -> Page) (capacity : Bounds -> nat) (st : State) :
  pages st <> [] -> chainOrdered st ->
  (forall fuel st',
     flowOversetText newPage capacity fuel st = Some st' ->
     exists n,
       st' = turns newPage n st
       /\ (forall k, (k < n)%nat ->
             overflows capacity (turns newPage k st) = true)
       /\ overflows capacity st' = false
       /\ grown st st' n
       /\ chainOrdered st')
  /\ (forall n, pages (turns newPage n st)
                  `prefix_of` pages (turns newPage (S n) st))
  /\ ((forall d, (0 < capacity (insideMargins (newPage d)))%nat) ->
      exists fuel st', flowOversetText newPage capacity fuel st = Some st').
Proof.
  intros Hp Ho. split; [|split].
  - intros fuel st' H.
    destruct (flow_turns _ _ _ _ _ H) as (n & _ & -> & Hk & Hf).
    exists n. repeat split; try assumption.
    + now apply turns_grown.
    + now apply turns_ordered.
    + now apply turns_ordered.
  - intros n. cbn [turns]. rewrite flowStep_pages. now eexists.
  - intros Hcap.
    exists (content st - displayed capacity (textContainers st))%nat.
    apply flow_enough; auto.
Qed.

(** On sample data: three frames' worth of text placed on a one-page
    document. *)
Lemma pagination_flow_witness :
  (pages threeFrames <> [] /\ chainOrdered threeFrames)
  /\ (forall fuel st',
        flowOversetText (fun _ => samplePage) areaCapacity fuel threeFrames
        = Some st' ->
        exists n,
          st' = turns (fun _ => samplePage) n threeFrames
          /\ (forall k, (k < n)%nat ->
                overflows areaCapacity (turns (fun _ => samplePage) k threeFrames)
                = true)
          /\ overflows areaCapacity st' = false
          /\ grown threeFrames st' n
          /\ chainOrdered st')
  /\ (forall n, pages (turns (fun _ => samplePage) n threeFrames)
                  `prefix_of` pages (turns (fun _ => samplePage) (S n) threeFrames))
  /\ ((forall d : list Page,
         (0 < areaCapacity (insideMargins ((fun _ => samplePage) d)))%nat) ->
      exists fuel st',
        flowOversetText (fun _ => samplePage) areaCapacity fuel threeFrames
        = Some st').
Proof.
  assert (Hp : pages threeFrames <> []) by discriminate.
  assert (Ho : chainOrdered threeFrames).
  { split; repeat constructor. }
  split; [exact (conj Hp Ho)|].
  exact (pagination_flow (fun _ => samplePage) areaCapacity threeFrames Hp Ho).
Defined.

(** C9, as stated, fails: the loop has no cap.  On a page whose margins
    leave no usable area, a story of one unit of text keeps the loop going
    for ever: no number of turns ends it. *)
Lemma pagination_without_cap_diverges :
  usableArea (insideMargins marginsOnlyPage) = 0%float
  /\ overflows areaCapacity oneUnit = true
  /\ (forall fuel,
        flowOversetText (fun _ => marginsOnlyPage) areaCapacity fuel oneUnit
        = None)
  /\ (forall n,
        length (pages (turns (fun _ => marginsOnlyPage) n oneUnit)) = S n).
Proof.
  split; [reflexivity|]. split; [reflexivity|]. split.
  - intros fuel. apply flow_never; [discriminate | reflexivity | reflexivity].
  - intros n.
    destruct (turns_grown (fun _ => marginsOnlyPage) n oneUnit ltac:(discriminate))
      as (added & _ & -> & _ & _ & Hl & _).
    rewrite length_app, Hl. reflexivity.
Qed.

(** C9, amended.  The loop has no iteration or page cap.  When all the
    frames it creates have the same capacity c, the loop started on an
    overflowing story ends if and only if c is positive: with c = 0 (no
    usable area) it adds pages for ever, and never fails. *)
Theorem pagination_terminates_iff_capacity
    (newPage : list Page -> Page) (capacity : Bounds -> nat)
    (st : State) (c : nat) :
  pages st <> [] ->
  (forall d, capacity (insideMargins (newPage d)) = c) ->
  overflows capacity st = true ->
  (exists fuel st', flowOversetText newPage capacity fuel st = Some st')
  <-> (0 < c)%nat.
Proof.
  intros Hp Hc Ho. split.
  - intros (fuel & st' & H). destruct c as [|c]; [|lia].
    rewrite flow_never in H; [discriminate | assumption..].
  - intros Hpos. exists (content st - displayed capacity (textContainers st))%nat.
    apply flow_enough; [assumption | | lia]. intros d. rewrite Hc. exact Hpos.
Qed.

(** On sample data: frames of capacity 600. *)
Lemma pagination_terminates_iff_capacity_witness :
  (pages threeFrames <> []
   /\ (forall d : list Page,
         areaCapacity (insideMargins ((fun _ => samplePage) d)) = 600%nat)
   /\ overflows areaCapacity threeFrames = true)
  /\ ((exists fuel st',
         flowOversetText (fun _ => samplePage) areaCapacity fuel threeFrames
         = Some st')
      <-> (0 < 600)%nat).
Proof.
  assert (Hp : pages threeFrames <> []) by discriminate.
  assert (Hc : forall d : list Page,
             areaCapacity (insideMargins ((fun _ => samplePage) d)) = 600%nat)
    by (intros d; vm_compute; reflexivity).
  assert (Ho : overflows areaCapacity threeFrames = true)
    by (vm_compute; reflexivity).
  split; [exact (conj Hp (conj Hc Ho))|].
  exact (pagination_terminates_iff_capacity
           (fun _ => samplePage) areaCapacity threeFrames 600 Hp Hc Ho).
Defined.

End PaginationFacts.

Module SanitizerFacts.
Import JsString Shape JsStringFacts Sanitizer.

Example sanitize_sample :
  sanitize [str " Title "; []; []; []; str "Body text"; [SP; TAB]; str "End"]
  = [str "Title"; str "Body text"; str "End"].
Proof. reflexivity. Qed.

Example collapse_sample :
  collapseParagraphs [str "a"; []; []; []; str "b"; []; str "c"]
  = [str "a"; []; str "b"; []; str "c"].
Proof. reflexivity. Qed.

(** *** The loop as a whole *)

Lemma trimLoop_step i ps :
  trimLoop i ps =
  match ps !! i with
  | None => ps
  | Some c =>
      if isBlank (trim c) then trimLoop i (delete i ps)
      else trimLoop (S i) (<[i := trim c]> ps)
  end.
Proof.
  funelim (trimLoop i ps).
  - rewrite (lookup_ge_None_2 ps i) by lia. simp trimLoop.
    destruct (decide (i < length ps)%nat); [lia | reflexivity].
  - destruct (lookup_lt_is_Some_2 ps i Hlt) as [c Hc].
    rewrite Hc. rewrite (nth_lookup_Some _ _ _ _ Hc) in *.
    rewrite Heqcall, Heq. reflexivity.
  - destruct (lookup_lt_is_Some_2 ps i Hlt) as [c Hc].
    rewrite Hc. rewrite (nth_lookup_Some _ _ _ _ Hc) in *.
    rewrite Heqcall, Heq. reflexivity.
Qed.

(** With [i] paragraphs already handled, the loop leaves them alone and
    keeps, of the others, the trimmed contents that are not blank, in
    order: no paragraph is passed over. *)
Lemma trimLoop_spec (n : nat) : forall i ps,
  (length ps - i <= n)%nat ->
  trimLoop i ps = take i ps ++ filter kept (trim <$> drop i ps).
Proof.
  induction n as [|n IH]; intros i ps Hn; rewrite trimLoop_step.
  - rewrite (lookup_ge_None_2 ps i) by lia.
    rewrite drop_ge, take_ge by lia. now rewrite app_nil_r.
  - destruct (ps !! i) as [c|] eqn:Hc.
    + pose proof (lookup_lt_Some _ _ _ Hc) as Hlt.
      pose proof (take_drop_middle ps i c Hc) as Hps.
      assert (Hl : length (take i ps) = i) by (rewrite length_take; lia).
      set (l1 := take i ps) in *. set (l2 := drop (S i) ps) in *.
      clearbody l1 l2. subst ps i.
      rewrite drop_app_length, fmap_cons.
      rewrite length_app in Hn. simpl in Hn.
      destruct (isBlank (trim c)) eqn:Hb.
      * rewrite delete_middle. rewrite IH by (rewrite length_app; lia).
        rewrite filter_cons_False by (unfold kept; congruence).
        now rewrite take_app_length, drop_app_length.
      * rewrite filter_cons_True by exact Hb.
        rewrite insert_app_r_alt, Nat.sub_diag by lia. simpl.
        rewrite IH by (rewrite length_app; simpl; lia).
        rewrite (cons_middle (trim c) l1 l2), app_assoc.
        replace (S (length l1)) with (length (l1 ++ [trim c]))
          by (rewrite length_app; simpl; lia).
        rewrite take_app_length, drop_app_length, <- app_assoc. reflexivity.
    + pose proof (lookup_ge_None_1 _ _ Hc).
      rewrite drop_ge, take_ge by lia. now rewrite app_nil_r.
Qed.

Lemma trimAndPrune_filter ps :
  trimAndPrune ps = filter kept (trim <$> ps).
Proof.
  unfold trimAndPrune. rewrite (trimLoop_spec (length ps)) by lia.
  now rewrite take_0, drop_0.
Qed.

(** *** Text and paragraphs *)

Lemma paragraphsOf_terminated p t :
  CR ∉ p -> paragraphsOf (p ++ CR :: t) = p :: paragraphsOf t.
Proof.
  induction p as [|c p IH]; intros Hp; simpl.
  - reflexivity.
  - destruct (N.eqb_spec c CR) as [->|_].
    + exfalso. apply Hp. left.
    + rewrite IH; [reflexivity|]. intros H. apply Hp. now right.
Qed.

Lemma paragraphsOf_storyText ps :
  Forall (fun p => CR ∉ p) ps -> paragraphsOf (storyText ps) = ps.
Proof.
  induction 1 as [|p ps Hp _ IH]; simpl; [reflexivity|].
  rewrite <- app_assoc. simpl. now rewrite paragraphsOf_terminated, IH.
Qed.

Lemma paragraphsOf_noCR t : Forall (fun p => CR ∉ p) (paragraphsOf t).
Proof.
  induction t as [|c t IH]; simpl; [constructor|].
  destruct (N.eqb_spec c CR) as [->|Hc].
  - constructor; [apply not_elem_of_nil | exact IH].
  - destruct (paragraphsOf t) as [|p ps].
    + constructor; [|constructor]. intros H. apply list_elem_of_singleton in H. congruence.
    + inversion IH as [|? ? Hp Hps]; subst. constructor; [|exact Hps].
      intros H. apply elem_of_cons in H. destruct H; [congruence | now apply Hp].
Qed.

Lemma many_elem cls s x : x ∈ many cls s -> x ∈ s.
Proof.
  induction s as [|c s IH]; simpl; [trivial|].
  destruct (cls c); [|trivial]. intros H. right. now apply IH.
Qed.

Lemma rtrim_elem s x : x ∈ rtrim s -> x ∈ s.
Proof.
  induction s as [|c s IH]; simpl; [trivial|].
  destruct (rtrim s) as [|d r].
  - destruct (isSpace c); intros H.
    + now apply elem_of_nil in H.
    + apply list_elem_of_singleton in H. subst. left.
  - intros H. apply elem_of_cons in H. destruct H as [->|H]; [left|right; now apply IH].
Qed.

Lemma trim_elem s x : x ∈ trim s -> x ∈ s.
Proof. intros H. apply many_elem with isSpace. now apply rtrim_elem. Qed.

(** What the stage guarantees of every paragraph it leaves. *)
Definition clean (p : jsstring) : Prop :=
  isBlank p = false /\ trim p = p /\ CR ∉ p.

Lemma trimAndPrune_clean ps :
  Forall (fun p => CR ∉ p) ps -> Forall clean (trimAndPrune ps).
Proof.
  intros Hps. rewrite trimAndPrune_filter.
  induction Hps as [|p ps Hp _ IH]; [constructor|].
  rewrite fmap_cons. destruct (isBlank (trim p)) eqn:Hb.
  - rewrite filter_cons_False by (unfold kept; congruence). exact IH.
  - rewrite filter_cons_True by exact Hb. constructor; [|exact IH].
    repeat split; [exact Hb | apply trim_idem |].
    intros H. apply Hp. now apply trim_elem.
Qed.

Lemma trimAndPrune_fixed ps :
  Forall clean ps -> trimAndPrune ps = ps.
Proof.
  intros Hps. rewrite trimAndPrune_filter.
  induction Hps as [|p ps (Hb & Ht & _) _ IH]; [reflexivity|].
  rewrite fmap_cons, Ht, filter_cons_True by exact Hb. now rewrite IH.
Qed.

Section CleanText.

Variable minRun : nat.
Variable repl : jsstring.
Hypothesis minRun_ge : (2 <= minRun)%nat.

Lemma flushRun_0 : flushRun minRun repl 0 = [].
Proof. unfold flushRun. destruct (Nat.leb_spec minRun 0); [lia | reflexivity]. Qed.

Lemma flushRun_1 : flushRun minRun repl 1 = [CR].
Proof. unfold flushRun. destruct (Nat.leb_spec minRun 1); [lia | reflexivity]. Qed.

Lemma changeGrepFrom_body p t :
  CR ∉ p ->
  changeGrepFrom minRun repl 0 (p ++ CR :: t)
  = p ++ changeGrepFrom minRun repl 1 t.
Proof.
  induction p as [|c p IH]; intros Hp; simpl; [reflexivity|].
  destruct (N.eqb_spec c CR) as [->|_].
  - exfalso. apply Hp. left.
  - rewrite flushRun_0, IH; [reflexivity|]. intros H. apply Hp. now right.
Qed.

(** Text whose paragraphs are all clean has no two returns in a row: the
    GREP change finds nothing to replace. *)
Lemma changeGrepFrom_clean ps :
  Forall clean ps ->
  changeGrepFrom minRun repl 1 (storyText ps) = CR :: storyText ps.
Proof.
  induction 1 as [|p ps (Hb & _ & Hcr) _ IH]; simpl; [apply flushRun_1|].
  destruct p as [|c p]; [discriminate|].
  rewrite <- app_assoc. simpl.
  destruct (N.eqb_spec c CR) as [->|_]; [exfalso; apply Hcr; left|].
  rewrite flushRun_1, changeGrepFrom_body, IH; [reflexivity|].
  intros H. apply Hcr. now right.
Qed.

Lemma changeGrep_clean ps :
  Forall clean ps -> changeGrep minRun repl (storyText ps) = storyText ps.
Proof.
  unfold changeGrep. destruct 1 as [|p ps (Hb & _ & Hcr) Hps]; simpl; [apply flushRun_0|].
  rewrite <- app_assoc. simpl.
  now rewrite changeGrepFrom_body, changeGrepFrom_clean.
Qed.

End CleanText.

Lemma sanitize_clean ps : Forall clean (sanitize ps).
Proof. apply trimAndPrune_clean, paragraphsOf_noCR. Qed.

Lemma sanitize_fixed ps : Forall clean ps -> sanitize ps = ps.
Proof.
  intros Hps. unfold sanitize, insertHeadingBreaks, collapseReturns.
  rewrite changeGrep_clean by (lia || exact Hps).
  rewrite paragraphsOf_storyText; [now apply trimAndPrune_fixed|].
  eapply Forall_impl; [exact Hps|]. now intros p (_ & _ & H).
Qed.

(** *** Runs of returns inside the text *)

Lemma storyText_app ps qs : storyText (ps ++ qs) = storyText ps ++ storyText qs.
Proof. unfold storyText. now rewrite flat_map_app. Qed.

Lemma storyText_blanks n : storyText (repeat [] n) = repeat CR n.
Proof. induction n as [|n IH]; simpl; [reflexivity|]. now rewrite IH. Qed.

Lemma storyText_ends ps : ps <> [] -> exists y, storyText ps = y ++ [CR].
Proof.
  destruct ps as [|p ps _] using rev_ind; [congruence|]. intros _.
  exists (storyText ps ++ p). rewrite storyText_app. simpl.
  now rewrite app_nil_r, app_assoc.
Qed.

Lemma paragraphsOf_nonempty c t : paragraphsOf (c :: t) <> [].
Proof.
  simpl. destruct (c =? CR); [discriminate|].
  destruct (paragraphsOf t); discriminate.
Qed.

Lemma paragraphsOf_split x z :
  paragraphsOf (x ++ CR :: z) = paragraphsOf (x ++ [CR]) ++ paragraphsOf z.
Proof.
  induction x as [|c x IH]; [reflexivity|].
  cbn [app paragraphsOf]. destruct (c =? CR).
  - now rewrite IH.
  - rewrite IH. destruct (paragraphsOf (x ++ [CR])) as [|p ps] eqn:E; [|reflexivity].
    destruct x; simpl in E; [discriminate|]. now apply paragraphsOf_nonempty in E.
Qed.

Section Runs.

Variable minRun : nat.
Variable repl : jsstring.
Hypothesis minRun_ge : (2 <= minRun)%nat.
Hypothesis repl_returns : exists m, repl = repeat CR (S m).

#[local] Abbreviation cg := (changeGrepFrom minRun repl).

Lemma changeGrepFrom_cut r x c y :
  c <> CR -> cg r (x ++ c :: y) = cg r x ++ c :: cg 0 y.
Proof.
  intros Hc. revert r. induction x as [|d x IH]; intros r; simpl.
  - destruct (N.eqb_spec c CR); [congruence | reflexivity].
  - destruct (d =? CR); [apply IH|]. simpl.
    now rewrite IH, <- app_assoc.
Qed.

Lemma changeGrepFrom_run r n t : cg r (repeat CR n ++ t) = cg (r + n) t.
Proof.
  revert r. induction n as [|n IH]; intros r; simpl.
  - now rewrite Nat.add_0_r.
  - simpl. rewrite IH. f_equal. lia.
Qed.

Lemma flushRun_ends r : exists z, flushRun minRun repl (S r) = z ++ [CR].
Proof.
  unfold flushRun. destruct (minRun <=? S r)%nat.
  - destruct repl_returns as [m ->]. exists (repeat CR m).
    simpl. now rewrite repeat_cons.
  - exists (repeat CR r). simpl. now rewrite repeat_cons.
Qed.

Lemma flushRun_head r : exists z, flushRun minRun repl (S r) = CR :: z.
Proof.
  unfold flushRun. destruct (minRun <=? S r)%nat.
  - destruct repl_returns as [m ->]. now exists (repeat CR m).
  - now exists (repeat CR r).
Qed.

Lemma changeGrepFrom_ends r y : exists z, cg r (y ++ [CR]) = z ++ [CR].
Proof.
  revert r. induction y as [|d y IH]; intros r; simpl.
  - apply flushRun_ends.
  - destruct (d =? CR); [apply IH|].
    destruct (IH 0%nat) as [z ->].
    exists (flushRun minRun repl r ++ d :: z). now rewrite <- app_assoc.
Qed.

Lemma changeGrepFrom_head r t : exists z, cg (S r) t = CR :: z.
Proof.
  revert r. induction t as [|c t IH]; intros r; simpl.
  - apply flushRun_head.
  - destruct (c =? CR); [apply IH|].
    destruct (flushRun_head r) as [z ->]. simpl. eauto.
Qed.

(** A paragraph that is not empty stands between the runs around it: the
    change before it does not depend on what follows. *)
Lemma changeGrep_paragraph_last pre a :
  a <> [] -> CR ∉ a ->
  paragraphsOf (changeGrep minRun repl (storyText (pre ++ [a])))
  = paragraphsOf (changeGrep minRun repl (storyText pre)) ++ [a].
Proof.
  intros Ha Hcr. destruct a as [|c a]; [congruence|].
  assert (Hc : c <> CR) by (intros ->; apply Hcr; left).
  assert (Ha' : CR ∉ a) by (intros H; apply Hcr; now right).
  rewrite storyText_app. simpl. rewrite app_nil_r. unfold changeGrep.
  rewrite changeGrepFrom_cut by exact Hc.
  rewrite changeGrepFrom_body by assumption. cbn [changeGrepFrom].
  rewrite flushRun_1 by exact minRun_ge.
  destruct (decide (pre = [])) as [->|Hpre].
  - cbn [storyText flat_map changeGrepFrom].
    rewrite flushRun_0 by exact minRun_ge. cbn [app paragraphsOf].
    destruct (N.eqb_spec c CR); [congruence|].
    now rewrite (paragraphsOf_terminated a []).
  - destruct (storyText_ends pre Hpre) as [y ->].
    destruct (changeGrepFrom_ends 0%nat y) as [z Hz]. rewrite Hz.
    rewrite <- app_assoc. cbn [app]. rewrite paragraphsOf_split. f_equal.
    change (c :: a ++ [CR]) with ((c :: a) ++ CR :: []).
    now rewrite paragraphsOf_terminated.
Qed.

Lemma changeGrep_paragraph_first b post :
  CR ∉ b ->
  exists R, paragraphsOf (changeGrep minRun repl (storyText (b :: post))) = b :: R.
Proof.
  intros Hcr. simpl. rewrite <- app_assoc. cbn [app]. unfold changeGrep.
  rewrite changeGrepFrom_body by assumption.
  destruct (changeGrepFrom_head 0%nat (storyText post)) as [z Hz].
  rewrite Hz, paragraphsOf_terminated by exact Hcr. eauto.
Qed.

End Runs.

(** Lines 44-52 on a run of at least two empty paragraphs between two
    paragraphs that are not empty: one empty paragraph is left there. *)
Lemma collapseParagraphs_interior pre a b post n :
  a <> [] -> CR ∉ a -> b <> [] -> CR ∉ b -> (2 <= n)%nat ->
  collapseParagraphs (pre ++ [a] ++ repeat [] n ++ [b] ++ post)
  = collapseParagraphs (pre ++ [a]) ++ [] :: collapseParagraphs (b :: post).
Proof.
  intros Ha Hacr Hb Hbcr Hn. unfold collapseParagraphs, collapseReturns, changeGrep.
  destruct b as [|cb b0]; [congruence|].
  assert (Hcb : cb <> CR) by (intros ->; apply Hbcr; left).
  destruct a as [|ca a0 _] using rev_ind; [congruence|].
  assert (Hca : ca <> CR).
  { intros ->. apply Hacr. apply elem_of_app. right. left. }
  set (rest := b0 ++ CR :: storyText post).
  assert (E1 : storyText (pre ++ [a0 ++ [ca]] ++ repeat [] n ++ [cb :: b0] ++ post)
               = (storyText pre ++ a0) ++ ca :: (repeat CR (S n) ++ cb :: rest)).
  { rewrite !storyText_app, storyText_blanks. subst rest. simpl.
    rewrite !app_nil_r, <- !app_assoc. reflexivity. }
  assert (E2 : storyText (pre ++ [a0 ++ [ca]]) = (storyText pre ++ a0) ++ ca :: [CR]).
  { rewrite storyText_app. simpl. rewrite app_nil_r, <- !app_assoc. reflexivity. }
  assert (E3 : storyText ((cb :: b0) :: post) = [] ++ cb :: rest).
  { subst rest. simpl. rewrite <- app_assoc. reflexivity. }
  rewrite E1, E2, E3, !changeGrepFrom_cut by assumption.
  rewrite <- (app_nil_r (repeat CR (S n))), changeGrepFrom_run.
  set (X := changeGrepFrom 3 [CR; CR] 0 (storyText pre ++ a0)).
  set (Y := changeGrepFrom 3 [CR; CR] 0 rest).
  cbn [changeGrepFrom N.eqb Pos.eqb CR app Nat.add].
  unfold flushRun. destruct (Nat.leb_spec 3 (S n)); [|lia]. cbn [Nat.leb repeat app].
  change (X ++ ca :: CR :: CR :: cb :: Y) with (X ++ [ca] ++ CR :: CR :: cb :: Y).
  change (X ++ [ca; CR]) with (X ++ [ca] ++ [CR]).
  rewrite !app_assoc, paragraphsOf_split. f_equal.
  lia.
Qed.

Lemma trimAndPrune_trimmed ps :
  Forall (fun p => isBlank p = false /\ trim p = p) (trimAndPrune ps).
Proof.
  rewrite trimAndPrune_filter. induction ps as [|p ps IH]; [constructor|].
  rewrite fmap_cons. destruct (isBlank (trim p)) eqn:Hb.
  - rewrite filter_cons_False by (unfold kept; congruence). exact IH.
  - rewrite filter_cons_True by exact Hb. constructor; [|exact IH].
    split; [exact Hb | apply trim_idem].
Qed.

Lemma blankParagraphs_none ps :
  Forall (fun p => isBlank p = false) ps -> blankParagraphs ps = 0%nat.
Proof.
  unfold blankParagraphs. induction 1 as [|p ps Hp _ IH]; [reflexivity|].
  simpl. now rewrite Hp.
Qed.

Lemma sanitize_no_blank ps : blankParagraphs (sanitize ps) = 0%nat.
Proof.
  apply blankParagraphs_none. eapply Forall_impl; [apply sanitize_clean|].
  now intros p (H & _).
Qed.

Lemma sanitizeSingle_idempotent ps :
  sanitizeSingle (sanitizeSingle ps) = sanitizeSingle ps.
Proof.
  assert (Hc : Forall clean (sanitizeSingle ps))
    by apply trimAndPrune_clean, paragraphsOf_noCR.
  revert Hc. generalize (sanitizeSingle ps). intros qs Hqs.
  unfold sanitizeSingle, collapseReturnsSingle.
  rewrite changeGrep_clean by (lia || exact Hqs).
  rewrite paragraphsOf_storyText; [now apply trimAndPrune_fixed|].
  eapply Forall_impl; [exact Hqs|]. now intros p (_ & _ & H).
Qed.

(** *** The properties of the stage *)

Lemma trimAndPrune_trimmedOf ps :
  Forall2 trimmedOf (filter (fun p => visible p = true) ps) (trimAndPrune ps).
Proof.
  rewrite trimAndPrune_filter. induction ps as [|p ps IH]; [constructor|].
  rewrite fmap_cons.
  assert (Hb : isBlank (trim p) = negb (visible p))
    by (rewrite isBlank_trim; apply isBlank_visible).
  destruct (visible p) eqn:Hv.
  - rewrite filter_cons_True by exact Hv.
    rewrite filter_cons_True by exact Hb.
    constructor; [apply trim_trimmedOf | exact IH].
  - rewrite filter_cons_False by congruence.
    rewrite filter_cons_False by (unfold kept; simpl in Hb; congruence).
    exact IH.
Qed.

Lemma trimAndPrune_visible ps :
  Forall (fun q => visible q = true) (trimAndPrune ps).
Proof.
  eapply Forall_impl; [apply trimAndPrune_trimmed|].
  intros q [Hq _]. rewrite isBlank_visible in Hq.
  now destruct (visible q).
Qed.

(** C7. Trim-and-prune pass (lines 62-68).  The paragraphs the pass leaves
    are, in their order, the input paragraphs that hold some code unit that
    is not white space, each without the white space at its two ends: the
    input paragraph is the paragraph left between two runs of white space,
    and the paragraph left neither begins nor ends with white space.  Every
    other paragraph is deleted, and no whitespace-only paragraph remains.
    The loop never passes over the paragraph that moved into a deleted
    one's position: at every index it has left the paragraphs before it as
    they are and will keep, of the others and in their order, exactly the
    trimmed contents that are not blank. *)
Theorem trim_and_prune_leaves_no_blank (ps : list jsstring) :
  (forall i, trimLoop i ps
             = take i ps ++ filter (fun p => isBlank p = false) (trim <$> drop i ps))
  /\ trimAndPrune ps = filter (fun p => isBlank p = false) (trim <$> ps)
  /\ Forall (fun p => isBlank p = false /\ trim p = p) (trimAndPrune ps)
  /\ Forall2 trimmedOf (filter (fun p => visible p = true) ps) (trimAndPrune ps)
  /\ Forall (fun q => visible q = true) (trimAndPrune ps).
Proof.
  split; [|split; [|split; [|split]]].
  - intros i. now apply (trimLoop_spec (length ps - i)).
  - apply trimAndPrune_filter.
  - apply trimAndPrune_trimmed.
  - apply trimAndPrune_trimmedOf.
  - apply trimAndPrune_visible.
Qed.

(** C6. The sanitizer stage (collapse of returns, then trim-and-prune) is
    idempotent: run on its own result it changes no paragraph and removes
    none. *)
Theorem sanitize_idempotent (ps : list jsstring) :
  sanitize (sanitize ps) = sanitize ps.
Proof. apply sanitize_fixed, sanitize_clean. Qed.

(** C2, as stated, fails: after the whole sanitizer stage a run of two blank
    paragraphs between "A" and "B" leaves no blank paragraph, not one. *)
Lemma blank_run_leaves_no_blank :
  sanitize [str "A"; []; []; str "B"] = [str "A"; str "B"]
  /\ blankParagraphs (sanitize [str "A"; []; []; str "B"]) <> 1%nat.
Proof. split; [reflexivity | discriminate]. Qed.

(** C2, amended. For a run of n >= 2 empty paragraphs between two paragraphs
    [a] and [b] that are not empty: the collapse step (lines 44-52) leaves
    exactly one empty paragraph between [a] and [b]; the trim-and-prune pass
    then deletes it, so after the whole stage [a]'s and [b]'s parts of the
    story are adjacent and no blank paragraph remains. *)
Theorem blank_run_collapsed_then_pruned
    (pre post : list jsstring) (a b : jsstring) (n : nat) :
  a <> [] -> CR ∉ a -> b <> [] -> CR ∉ b -> (2 <= n)%nat ->
  (exists R, collapseParagraphs (pre ++ [a] ++ repeat [] n ++ [b] ++ post)
             = collapseParagraphs pre ++ [a; []; b] ++ R)
  /\ sanitize (pre ++ [a] ++ repeat [] n ++ [b] ++ post)
     = sanitize (pre ++ [a]) ++ sanitize (b :: post)
  /\ blankParagraphs (sanitize (pre ++ [a] ++ repeat [] n ++ [b] ++ post)) = 0%nat.
Proof.
  intros Ha Hacr Hb Hbcr Hn.
  pose proof (collapseParagraphs_interior pre a b post n Ha Hacr Hb Hbcr Hn) as E.
  split; [|split].
  - destruct (changeGrep_paragraph_first 3 [CR; CR] ltac:(lia)
                ltac:(now exists 1%nat) b post Hbcr) as [R HR].
    exists R. rewrite E. unfold collapseParagraphs, collapseReturns in *.
    rewrite HR, changeGrep_paragraph_last by (lia || assumption || now exists 1%nat).
    now rewrite <- app_assoc.
  - unfold sanitize, insertHeadingBreaks. fold (collapseParagraphs (pre ++ [a])).
    fold (collapseParagraphs (b :: post)).
    fold (collapseParagraphs (pre ++ [a] ++ repeat [] n ++ [b] ++ post)).
    rewrite E, !trimAndPrune_filter, fmap_app, filter_app, fmap_cons.
    now rewrite filter_cons_False by (unfold kept; cbn; congruence).
  - apply sanitize_no_blank.
Qed.

(** On sample data: three empty paragraphs between "A" and "B". *)
Lemma blank_run_collapsed_then_pruned_witness :
  let pre := [str "Intro"] in
  let post := [[]; str "End"] in
  (exists R, collapseParagraphs (pre ++ [str "A"] ++ repeat [] 3 ++ [str "B"] ++ post)
             = collapseParagraphs pre ++ [str "A"; []; str "B"] ++ R)
  /\ sanitize (pre ++ [str "A"] ++ repeat [] 3 ++ [str "B"] ++ post)
     = sanitize (pre ++ [str "A"]) ++ sanitize (str "B" :: post)
  /\ blankParagraphs (sanitize (pre ++ [str "A"] ++ repeat [] 3 ++ [str "B"] ++ post)) = 0%nat.
Proof.
  apply (blank_run_collapsed_then_pruned [str "Intro"] [[]; str "End"]
           (str "A") (str "B") 3).
  - discriminate.
  - vm_compute. intros H. apply list_elem_of_singleton in H. discriminate.
  - discriminate.
  - vm_compute. intros H. apply list_elem_of_singleton in H. discriminate.
  - lia.
Defined.

End SanitizerFacts.

Module StyleMappingFacts.
Import JsString Document StyleMapping.

(** The if-else chain of either revision is its rule table read first
    match first, followed by [clearOverrides]. *)
Lemma mapStyle_chain rev styles para :
  mapStyle rev styles para
  = clearOverrides (chainOutcome (ruleChain rev styles) (body styles) para).
Proof.
  destruct rev; unfold mapStyle, mapStyleH3, mapStyleH6, chainOutcome;
    cbn [ruleChain headingRules app List.find]; unfold fires; cbn [fst snd];
    repeat
      (match goal with
       | |- context [icontains ?a ?b && registered ?c] =>
           destruct (icontains a b && registered c)
       end; [reflexivity|]);
    reflexivity.
Qed.

Lemma find_skip {A} (f : A -> bool) (before l : list A) :
  Forall (fun r => f r = false) before ->
  List.find f (before ++ l) = List.find f l.
Proof. induction 1 as [|r before Hr _ IH]; simpl; [reflexivity|]. now rewrite Hr. Qed.

Lemma find_none {A} (f : A -> bool) (l : list A) :
  Forall (fun r => f r = false) l -> List.find f l = None.
Proof. induction 1 as [|r l Hr _ IH]; simpl; [reflexivity|]. now rewrite Hr. Qed.

Lemma chainOutcome_rule rules fallback para before pat target after :
  rules = before ++ (pat, target) :: after ->
  icontains pat (srcNameOf para) = true ->
  Forall (fun r => fires (srcNameOf para) r = false) before ->
  (forall s, target = Some s ->
     chainOutcome rules fallback para = setStyle (Some s) para)
  /\ (target = None ->
      Forall (fun r => fires (srcNameOf para) r = false) after ->
      chainOutcome rules fallback para
      = if registered fallback then setStyle fallback para else para).
Proof.
  intros -> Hpat Hbefore. unfold chainOutcome. rewrite find_skip by exact Hbefore.
  assert (Hf : fires (srcNameOf para) (pat, target) = registered target)
    by (unfold fires; cbn [fst snd]; now rewrite Hpat).
  cbn [List.find]. rewrite Hf. split.
  - intros s ->. reflexivity.
  - intros -> Hafter. cbn [registered]. now rewrite find_none.
Qed.

Lemma applyStyleMapping_lookup rev styles (paragraphs : list Paragraph) i :
  applyStyleMapping rev styles paragraphs !! i
  = mapStyle rev styles <$> paragraphs !! i.
Proof. unfold applyStyleMapping. apply list_lookup_fmap. Qed.

(** *** The properties of the stage *)

(** C3, as stated, fails: with "Body" registered and "Heading 3" not, a
    paragraph whose source style name matches the Heading 3 pattern is
    reassigned to the body style by both revisions of the chain. *)
Lemma unregistered_heading_gets_body :
  icontains (str "Heading 3") (srcNameOf headingParagraph) = true
  /\ h3 (gatherStylesH6 bodyOnlyDocument) = None
  /\ h3 (gatherStylesH3 bodyOnlyDocument) = None
  /\ appliedParagraphStyle
       (mapStyleH6 (gatherStylesH6 bodyOnlyDocument) headingParagraph)
     = Some bodyStyle
  /\ appliedParagraphStyle
       (mapStyleH3 (gatherStylesH3 bodyOnlyDocument) headingParagraph)
     = Some bodyStyle
  /\ Some bodyStyle <> appliedParagraphStyle headingParagraph.
Proof. repeat split; try (vm_compute; reflexivity). discriminate. Qed.

(** C3, amended.  Pass A is a first-match-wins chain.  For a paragraph whose
    source style name matches the pattern of a rule of the chain (Heading 1
    to Heading 6, or Normal) that no earlier rule has claimed: if the rule's
    target style is registered the paragraph is reassigned to it; if it is
    unregistered the chain goes on, and when no later rule fires the
    paragraph is reassigned to the body style if that is registered, and only
    otherwise keeps its style.  No case raises an error, and the contents are
    never changed. *)
Theorem heading_rule_first_match
    (rev : Revision) (styles : Styles) (paragraphs : list Paragraph)
    (i : nat) (para : Paragraph)
    (before after : list Rule) (pat : jsstring)
    (target : option ParagraphStyle) :
  paragraphs !! i = Some para ->
  ruleChain rev styles = before ++ (pat, target) :: after ->
  icontains pat (srcNameOf para) = true ->
  Forall (fun r => fires (srcNameOf para) r = false) before ->
  exists para',
    applyStyleMapping rev styles paragraphs !! i = Some para'
    /\ contents para' = contents para
    /\ (forall s, target = Some s -> appliedParagraphStyle para' = Some s)
    /\ (target = None ->
        Forall (fun r => fires (srcNameOf para) r = false) after ->
        appliedParagraphStyle para'
        = match body styles with
          | Some b => Some b
          | None => appliedParagraphStyle para
          end).
Proof.
  intros Hi Hchain Hpat Hbefore.
  exists (mapStyle rev styles para).
  rewrite applyStyleMapping_lookup, Hi. split; [reflexivity|].
  rewrite mapStyle_chain.
  destruct (chainOutcome_rule _ (body styles) para _ _ _ _ Hchain Hpat Hbefore)
    as [Hreg Hunreg].
  split; [|split].
  - unfold chainOutcome. destruct (List.find _ _); [reflexivity|].
    now destruct (registered (body styles)).
  - intros s Hs. now rewrite (Hreg s Hs).
  - intros Ht Hafter. rewrite (Hunreg Ht Hafter).
    now destruct (body styles).
Qed.

(** On sample data: the Heading 3 rule of the six-heading chain, "Heading 3"
    not being registered. *)
Lemma heading_rule_first_match_witness :
  ([headingParagraph] !! 0%nat = Some headingParagraph
   /\ ruleChain HeadingsToH6 (gatherStylesH6 bodyOnlyDocument)
      = [(str "Normal", Some bodyStyle); (str "Heading 1", None);
         (str "Heading 2", None)]
        ++ (str "Heading 3", None)
        :: [(str "Heading 4", None); (str "Heading 5", None);
            (str "Heading 6", None)]
   /\ icontains (str "Heading 3") (srcNameOf headingParagraph) = true
   /\ Forall (fun r => fires (srcNameOf headingParagraph) r = false)
        [(str "Normal", Some bodyStyle); (str "Heading 1", None);
         (str "Heading 2", None)])
  /\ exists para',
       applyStyleMapping HeadingsToH6 (gatherStylesH6 bodyOnlyDocument)
         [headingParagraph] !! 0%nat = Some para'
       /\ contents para' = contents headingParagraph
       /\ (forall s, @None ParagraphStyle = Some s ->
           appliedParagraphStyle para' = Some s)
       /\ (@None ParagraphStyle = None ->
           Forall (fun r => fires (srcNameOf headingParagraph) r = false)
             [(str "Heading 4", None); (str "Heading 5", None);
              (str "Heading 6", None)] ->
           appliedParagraphStyle para'
           = match body (gatherStylesH6 bodyOnlyDocument) with
             | Some b => Some b
             | None => appliedParagraphStyle headingParagraph
             end).
Proof.
  assert (H1 : [headingParagraph] !! 0%nat = Some headingParagraph)
    by reflexivity.
  assert (H2 : ruleChain HeadingsToH6 (gatherStylesH6 bodyOnlyDocument)
               = [(str "Normal", Some bodyStyle); (str "Heading 1", None);
                  (str "Heading 2", None)]
                 ++ (str "Heading 3", None)
                 :: [(str "Heading 4", None); (str "Heading 5", None);
                     (str "Heading 6", None)])
    by (vm_compute; reflexivity).
  assert (H3 : icontains (str "Heading 3") (srcNameOf headingParagraph) = true)
    by (vm_compute; reflexivity).
  assert (H4 : Forall (fun r => fires (srcNameOf headingParagraph) r = false)
                 [(str "Normal", Some bodyStyle); (str "Heading 1", None);
                  (str "Heading 2", None)])
    by (repeat constructor).
  split; [exact (conj H1 (conj H2 (conj H3 H4)))|].
  exact (heading_rule_first_match HeadingsToH6 (gatherStylesH6 bodyOnlyDocument)
           [headingParagraph] 0 headingParagraph _ _ _ _ H1 H2 H3 H4).
Defined.

End StyleMappingFacts.

Module BulletsFacts.
Import JsString Shape JsStringFacts Document Bullets.

(** *** What a match removes *)

Lemma many_suffix cls s : exists d, s = d ++ many cls s.
Proof.
  induction s as [|c s [d IH]]; simpl; [now exists []|].
  destruct (cls c); [|now exists []]. exists (c :: d). simpl. now f_equal.
Qed.

Lemma optTab_suffix s : exists d, s = d ++ optTab s.
Proof.
  destruct s as [|c s]; simpl; [now exists []|].
  destruct (c =? TAB); [now exists [c] | now exists []].
Qed.

Lemma rtrim_first s c r : rtrim s = c :: r -> exists s', s = c :: s'.
Proof.
  destruct s as [|d s]; simpl; [discriminate|].
  destruct (rtrim s).
  - destruct (isSpace d); [discriminate|]. intros [= <- _]. eauto.
  - intros [= <- _]. eauto.
Qed.

Lemma glyphRE_strips c r :
  isGlyph c = true ->
  exists dropped, glyphRE (c :: r) = Some (optTab (many isSpace (many isGlyph r)))
    /\ c :: r = c :: dropped ++ optTab (many isSpace (many isGlyph r)).
Proof.
  intros Hc. unfold glyphRE, many1. rewrite Hc.
  destruct (many_suffix isGlyph r) as [d1 H1].
  destruct (many_suffix isSpace (many isGlyph r)) as [d2 H2].
  destruct (optTab_suffix (many isSpace (many isGlyph r))) as [d3 H3].
  exists (d1 ++ d2 ++ d3). split; [reflexivity|].
  rewrite <- !app_assoc, <- H3, <- H2, <- H1. reflexivity.
Qed.

Lemma tabs_suffix s : exists d, s = d ++ many (N.eqb TAB) s.
Proof. apply many_suffix. Qed.

(** *** The loop with the rolling flag *)

Lemma listStep_flag styles prev p :
  snd (listStep styles prev p)
  = if isHeadingOrTable p then false else shouldBeBullet prev p.
Proof.
  unfold listStep. destruct (isHeadingOrTable p); [reflexivity|].
  now destruct (shouldBeBullet prev p).
Qed.

Lemma listLoop_app styles prev l1 l2 :
  listLoop styles prev (l1 ++ l2)
  = (fst (listLoop styles prev l1)
       ++ fst (listLoop styles (snd (listLoop styles prev l1)) l2),
     snd (listLoop styles (snd (listLoop styles prev l1)) l2)).
Proof.
  revert prev. induction l1 as [|p l1 IH]; intros prev; simpl.
  - now destruct (listLoop styles prev l2).
  - destruct (listStep styles prev p) as [p' prev']. rewrite IH.
    destruct (listLoop styles prev' l1) as [r1 f1]. simpl.
    now destruct (listLoop styles f1 l2).
Qed.

Lemma listLoop_length styles prev l :
  length (fst (listLoop styles prev l)) = length l.
Proof.
  revert prev. induction l as [|p l IH]; intros prev; simpl; [reflexivity|].
  destruct (listStep styles prev p) as [p' prev']. specialize (IH prev').
  destruct (listLoop styles prev' l). simpl in *. now rewrite IH.
Qed.

Lemma flagAt_next styles (paras : list Paragraph) k p :
  paras !! k = Some p ->
  flagAt styles paras (S k)
  = snd (listStep styles (flagAt styles paras k) p).
Proof.
  intros Hk. unfold flagAt. rewrite (take_S_r _ _ _ Hk), listLoop_app. simpl.
  now destruct (listStep styles _ p).
Qed.

Lemma normalize_lookup styles (paras : list Paragraph) k p :
  paras !! k = Some p ->
  normalizeBulletsAndLists styles paras !! k
  = Some (fst (listStep styles (flagAt styles paras k) p)).
Proof.
  intros Hk. unfold normalizeBulletsAndLists, flagAt.
  rewrite <- (take_drop_middle _ _ _ Hk) at 1. rewrite listLoop_app. simpl.
  destruct (listStep styles _ p) as [p' prev'].
  destruct (listLoop styles prev' _) as [r f]. simpl.
  rewrite lookup_app_r; rewrite listLoop_length, length_take;
    pose proof (lookup_lt_Some _ _ _ Hk); [|lia].
  now replace (k - k `min` length paras)%nat with 0%nat by lia.
Qed.

Lemma contextual_only_when styles (paras : list Paragraph) k p :
  paras !! k = Some p ->
  contextual (flagAt styles paras k) p = true ->
  startsWithTab (contents p) = true
  /\ (looksListyStyle p = true
      \/ exists j q, k = S j /\ paras !! j = Some q
           /\ isHeadingOrTable q = false
           /\ shouldBeBullet (flagAt styles paras j) q = true).
Proof.
  intros Hk Hc. unfold contextual in Hc. apply andb_prop in Hc as [Ht Hl].
  split.
  - unfold txtOf, startsWithTab in *. destruct (rtrim (contents p)) as [|c r] eqn:E;
      [discriminate|].
    destruct (rtrim_first _ _ _ E) as [s' ->]. exact Ht.
  - apply orb_prop in Hl as [Hl|Hprev]; [now left | right].
    destruct k as [|j]; [discriminate Hprev|].
    destruct (lookup_lt_is_Some_2 paras j) as [q Hq];
      [apply lookup_lt_Some in Hk; lia|].
    exists j, q. rewrite (flagAt_next _ _ _ _ Hq), listStep_flag in Hprev.
    destruct (isHeadingOrTable q); [discriminate | auto].
Qed.

(** *** A paragraph led by a glyph of the single class

    What [txt.replace(/\s+$/,"")], [glyphRE] and [/^\t+/] take off such a
    paragraph, and what the two revisions of the loop body make of it. *)

Lemma glyph_led styles p b c rest :
  contents p = c :: rest -> isGlyph c = true -> isSpace c = false ->
  bullet styles = Some b ->
  exists glyphs spaces kept trailing,
    contents p = c :: glyphs ++ spaces ++ kept ++ trailing
    /\ allIn isGlyph glyphs = true /\ allIn isSpace spaces = true
    /\ ledBy isGlyph (spaces ++ kept) = false /\ ledBy isSpace kept = false
    /\ allIn isSpace trailing = true
    /\ endedBy isSpace (c :: glyphs ++ spaces ++ kept) = false
    /\ test glyphRE (txtOf p) = true
    /\ (namesHeadingOrTable (srcNameOf p) = false ->
        tightenedStep styles p = asBullet (Some b) kept p)
    /\ (isHeadingOrTable p = false -> forall prev,
        listStep styles prev p = (asBullet (Some b) kept p, true)).
Proof.
  intros Hc Hg Hs Hb.
  destruct (rtrim_head c rest Hs) as [r Hr].
  destruct (rtrim_cut (c :: rest)) as (trailing & Hcut & Htr).
  pose proof (rtrim_ended (c :: rest)) as Hend. rewrite Hr in Hcut, Hend.
  destruct (many_cut isGlyph r) as (glyphs & Hgl & Hgs).
  destruct (many_cut isSpace (many isGlyph r)) as (spaces & Hsp & Hss).
  pose proof (many_led isGlyph r) as Hled1.
  pose proof (many_led isSpace (many isGlyph r)) as Hled2.
  set (kept := many isSpace (many isGlyph r)) in *.
  assert (Hre : glyphRE (c :: r) = Some kept).
  { unfold glyphRE, many1. rewrite Hg. fold kept. now rewrite optTab_unled. }
  assert (Ht : test glyphRE (txtOf p) = true)
    by (unfold test, txtOf; now rewrite Hc, Hr, Hre).
  assert (Hrep : replaceFirst glyphRE (txtOf p) = kept)
    by (unfold replaceFirst, txtOf; now rewrite Hc, Hr, Hre).
  assert (Hsplit : r = glyphs ++ spaces ++ kept) by (rewrite <- Hsp; exact Hgl).
  exists glyphs, spaces, kept, trailing.
  split. { rewrite Hc, Hcut, Hsplit. simpl. now rewrite <- !app_assoc. }
  split; [exact Hgs|]. split; [exact Hss|].
  split; [now rewrite <- Hsp|]. split; [exact Hled2|]. split; [exact Htr|].
  split; [now rewrite <- Hsplit|]. split; [exact Ht|]. split.
  - intros Hskip. unfold tightenedStep. fold (txtOf p).
    now rewrite Hskip, Ht, orb_true_r, Hb, Hrep.
  - intros Hskip prev. unfold listStep, shouldBeBullet, bulletOrCurrent.
    rewrite Hskip, Ht, orb_true_r, Hb. cbn [orb]. unfold stripGlyphsAndTabs.
    now rewrite Hrep, tabs_unled.
Qed.

Lemma tightened_lookup styles (paras : list Paragraph) k p :
  paras !! k = Some p ->
  normalizeBulletsAndListsTightened styles paras !! k
  = Some (tightenedStep styles p).
Proof.
  intros Hk. unfold normalizeBulletsAndListsTightened.
  change (map (tightenedStep styles) paras)
    with (tightenedStep styles <$> paras).
  now rewrite list_lookup_fmap, Hk.
Qed.


(** In both revisions of [normalizeBulletsAndLists], at its place in the
    story: the paragraph becomes a bullet holding [kept]. *)
Lemma glyph_led_passes styles (paras : list Paragraph) k p b c rest :
  paras !! k = Some p ->
  contents p = c :: rest -> isGlyph c = true -> isSpace c = false ->
  bullet styles = Some b ->
  exists glyphs spaces kept trailing,
    contents p = c :: glyphs ++ spaces ++ kept ++ trailing
    /\ allIn isGlyph glyphs = true /\ allIn isSpace spaces = true
    /\ ledBy isGlyph (spaces ++ kept) = false /\ ledBy isSpace kept = false
    /\ allIn isSpace trailing = true
    /\ endedBy isSpace (c :: glyphs ++ spaces ++ kept) = false
    /\ test glyphRE (txtOf p) = true
    /\ (namesHeadingOrTable (srcNameOf p) = false ->
        exists q,
          normalizeBulletsAndListsTightened styles paras !! k = Some q
          /\ contents q = kept /\ appliedParagraphStyle q = Some b
          /\ bulletsAndNumberingListType q = BULLET_LIST)
    /\ (isHeadingOrTable p = false ->
        (exists q,
           normalizeBulletsAndLists styles paras !! k = Some q
           /\ contents q = kept /\ appliedParagraphStyle q = Some b
           /\ bulletsAndNumberingListType q = BULLET_LIST)
        /\ flagAt styles paras (S k) = true).
Proof.
  intros Hk Hc Hg Hs Hb.
  destruct (glyph_led styles p b c rest Hc Hg Hs Hb)
    as (glyphs & spaces & kept & trailing & H1 & H2 & H3 & H4 & H5 & H6 & H7
        & H8 & Ht & Hl).
  exists glyphs, spaces, kept, trailing.
  do 8 (split; [assumption|]). split.
  - intros Hskip. eexists. split; [exact (tightened_lookup _ _ _ _ Hk)|].
    rewrite (Ht Hskip). now repeat split.
  - intros Hskip. split.
    + eexists. split; [exact (normalize_lookup _ _ _ _ Hk)|].
      rewrite (Hl Hskip). now repeat split.
    + rewrite (flagAt_next _ _ _ _ Hk). now rewrite (Hl Hskip).
Qed.

(** *** Samples *)

Example skipped_names :
  isHeadingOrTable (plain headingTwo (str "Next part")) = true
  /\ isHeadingOrTable (plain listParagraph (str "item")) = false
  /\ namesHeadingOrTable (str "Heading 2 Char") = true.
Proof. repeat split. Qed.

Example overlap_of_classes :
  isSubGlyph WHITE_BULLET = true /\ isPrimaryGlyph WHITE_BULLET = true.
Proof. split; reflexivity. Qed.

Example once_is_stripped :
  contents (tightenedStep sampleStyles (plain bodyText (str "once upon a time")))
  = str "nce upon a time"
  /\ contents (fst (listStep sampleStyles false
                      (plain bodyText (str "once upon a time"))))
     = str "nce upon a time".
Proof. split; reflexivity. Qed.

Example item_one_other_revisions :
  tightenedStep sampleStyles (plain bodyText (BULLET :: str " Item one"))
  = {| contents := str "Item one"; appliedParagraphStyle := Some bulletsStyle;
       leftIndent := 0; bulletsAndNumberingListType := BULLET_LIST;
       overrides := false |}
  /\ fst (listStep sampleStyles false (plain bodyText (BULLET :: str " Item one")))
     = {| contents := str "Item one"; appliedParagraphStyle := Some bulletsStyle;
          leftIndent := 0; bulletsAndNumberingListType := BULLET_LIST;
          overrides := false |}.
Proof. split; reflexivity. Qed.

Example continuation_and_reset :
  map (fun p => isBulletList (bulletsAndNumberingListType p))
    (normalizeBulletsAndLists sampleStyles
       [plain listParagraph (TAB :: str "first");
        plain bodyText (TAB :: str "second");
        plain headingTwo (str "Next part");
        plain bodyText (TAB :: str "not a bullet")])
  = [true; true; false; false].
Proof. reflexivity. Qed.

(** *** The properties of the stage *)




(** C8. [normalizeBulletsAndLists] with the rolling flag (lines 273-321), at
    every turn k of the loop: the paragraph is handled with the current flag;
    the contextual signal holds only when the text begins with a tab and the
    style name is list-like or the paragraph just before was handled, not
    skipped, and classified as a bullet; after a heading or table paragraph
    the flag is false, after any other it tells whether that paragraph was
    classified as a bullet; the flag starts false. *)
Theorem previous_bullet_flag_invariant
    (styles : Styles) (paras : list Paragraph) (k : nat) (p : Paragraph) :
  paras !! k = Some p ->
  normalizeBulletsAndLists styles paras !! k
    = Some (fst (listStep styles (flagAt styles paras k) p))
  /\ flagAt styles paras 0 = false
  /\ flagAt styles paras (S k)
     = (if isHeadingOrTable p then false
        else shouldBeBullet (flagAt styles paras k) p)
  /\ (contextual (flagAt styles paras k) p = true ->
      startsWithTab (contents p) = true
      /\ (looksListyStyle p = true
          \/ exists j q, k = S j /\ paras !! j = Some q
               /\ isHeadingOrTable q = false
               /\ shouldBeBullet (flagAt styles paras j) q = true))
  /\ (isHeadingOrTable p = false ->
      isBulletList (bulletsAndNumberingListType p) = false ->
      test glyphRE (txtOf p) = false ->
      (bulletsAndNumberingListType
         (fst (listStep styles (flagAt styles paras k) p)) = BULLET_LIST
       <-> contextual (flagAt styles paras k) p = true)).
Proof.
  intros Hk. split; [exact (normalize_lookup _ _ _ _ Hk)|]. split; [reflexivity|].
  split; [now rewrite (flagAt_next _ _ _ _ Hk), listStep_flag|].
  split; [now apply contextual_only_when|].
  intros Hskip Hlist Hglyph. unfold listStep, shouldBeBullet.
  rewrite Hskip, Hlist, Hglyph. cbn [orb].
  destruct (contextual _ p); simpl; [tauto|].
  split; [|discriminate]. intros H. destruct (bulletsAndNumberingListType p);
    simpl in *; congruence.
Qed.

(** On sample data: the second of two tab-led paragraphs, the first being
    list-styled. *)
Lemma previous_bullet_flag_invariant_witness :
  [plain listParagraph (TAB :: str "first");
   plain bodyText (TAB :: str "second")] !! 1%nat
  = Some (plain bodyText (TAB :: str "second"))
  /\ flagAt sampleStyles
       [plain listParagraph (TAB :: str "first");
        plain bodyText (TAB :: str "second")] 2
     = (if isHeadingOrTable (plain bodyText (TAB :: str "second")) then false
        else shouldBeBullet
               (flagAt sampleStyles
                  [plain listParagraph (TAB :: str "first");
                   plain bodyText (TAB :: str "second")] 1)
               (plain bodyText (TAB :: str "second"))).
Proof.
  split; [reflexivity|].
  exact (proj1 (proj2 (proj2
    (previous_bullet_flag_invariant sampleStyles
       [plain listParagraph (TAB :: str "first");
        plain bodyText (TAB :: str "second")] 1
       (plain bodyText (TAB :: str "second")) eq_refl)))).
Defined.

(** C10. [glyphRE] asks for nothing after the glyph, and lowercase o,
    hyphen and en-dash are in its class.  So in both revisions of
    [normalizeBulletsAndLists], every paragraph of the story that is not
    skipped as heading or table and whose text begins with one of these
    characters counts as having a glyph and ends with the registered bullet
    style and the list flag.  Its text is that character, any further
    glyphs, any white space after them, the text that is kept, and white
    space at the end: the paragraph ends holding the text that is kept, which
    does not begin with white space.  In the revision with the rolling flag
    the flag is set after it. *)
Theorem leading_o_or_dash_is_bullet
    (styles : Styles) (paras : list Paragraph) (k : nat) (p : Paragraph)
    (b : ParagraphStyle) (c : N) (rest : jsstring) :
  paras !! k = Some p ->
  contents p = c :: rest ->
  c = LOWER_O \/ c = HYPHEN \/ c = EN_DASH ->
  bullet styles = Some b ->
  exists glyphs spaces kept trailing,
    contents p = c :: glyphs ++ spaces ++ kept ++ trailing
    /\ allIn isGlyph glyphs = true /\ allIn isSpace spaces = true
    /\ ledBy isGlyph (spaces ++ kept) = false /\ ledBy isSpace kept = false
    /\ allIn isSpace trailing = true
    /\ endedBy isSpace (c :: glyphs ++ spaces ++ kept) = false
    /\ test glyphRE (txtOf p) = true
    /\ (namesHeadingOrTable (srcNameOf p) = false ->
        exists q,
          normalizeBulletsAndListsTightened styles paras !! k = Some q
          /\ contents q = kept /\ appliedParagraphStyle q = Some b
          /\ bulletsAndNumberingListType q = BULLET_LIST)
    /\ (isHeadingOrTable p = false ->
        (exists q,
           normalizeBulletsAndLists styles paras !! k = Some q
           /\ contents q = kept /\ appliedParagraphStyle q = Some b
           /\ bulletsAndNumberingListType q = BULLET_LIST)
        /\ flagAt styles paras (S k) = true).
Proof.
  intros Hk Hc Hcls Hb.
  assert (Hg : isGlyph c = true)
    by (destruct Hcls as [-> | [-> | ->]]; reflexivity).
  assert (Hs : isSpace c = false)
    by (destruct Hcls as [-> | [-> | ->]]; reflexivity).
  exact (glyph_led_passes styles paras k p b c rest Hk Hc Hg Hs Hb).
Qed.

(** On sample data: a body paragraph "once upon a time" after a heading. *)
Lemma leading_o_or_dash_is_bullet_witness :
  ([plain headingTwo (str "Tales"); plain bodyText (str "once upon a time")]
     !! 1%nat
   = Some (plain bodyText (str "once upon a time"))
   /\ contents (plain bodyText (str "once upon a time"))
      = LOWER_O :: str "nce upon a time"
   /\ bullet sampleStyles = Some bulletsStyle)
  /\ exists kept q,
       normalizeBulletsAndListsTightened sampleStyles
         [plain headingTwo (str "Tales");
          plain bodyText (str "once upon a time")] !! 1%nat = Some q
       /\ contents q = kept
       /\ ledBy isSpace kept = false
       /\ appliedParagraphStyle q = Some bulletsStyle
       /\ bulletsAndNumberingListType q = BULLET_LIST.
Proof.
  split; [repeat split|].
  destruct (leading_o_or_dash_is_bullet sampleStyles
              [plain headingTwo (str "Tales");
               plain bodyText (str "once upon a time")] 1
              (plain bodyText (str "once upon a time")) bulletsStyle
              LOWER_O (str "nce upon a time")
              eq_refl eq_refl (or_introl eq_refl) eq_refl)
    as (glyphs & spaces & kept & trailing & _ & _ & _ & _ & Hled & _ & _ & _
        & Ht & _).
  destruct (Ht eq_refl) as (q & Hq & Hcq & Hst & Hlt).
  exists kept, q. auto.
Defined.

End BulletsFacts.

Module HyperlinksFacts.
Import JsString Hyperlinks.

Lemma iprefix_app a b u :
  iprefix (a ++ b) u
  = match iprefix a u with
    | Some r => iprefix b r
    | None => None
    end.
Proof.
  revert u. induction a as [|x a IH]; intros u; simpl; [reflexivity|].
  destruct u as [|c u]; [now destruct b|].
  destruct (ieqb x c); [apply IH | reflexivity].
Qed.

(** The test of the script is the specification's "begins with a recognized
    scheme", the scheme being followed by its colon and compared without
    regard to case. *)
Lemma hasUrlScheme_spec u : hasUrlScheme u = true <-> beginsWithScheme u.
Proof.
  unfold hasUrlScheme, beginsWithScheme, schemes. split.
  - intros H. apply orb_prop in H as [H|H]; [apply orb_prop in H as [H|H]|].
    + destruct (iprefix (str "http") u) as [r|] eqn:E; [|discriminate].
      destruct (iprefix (str ":") r) as [r'|] eqn:E1.
      * exists (str "http"), r'. split; [set_solver|].
        now rewrite iprefix_app, E.
      * destruct (iprefix (str "s:") r) as [r'|] eqn:E2; [|discriminate].
        exists (str "https"), r'. split; [set_solver|].
        change (str "https" ++ str ":") with (str "http" ++ str "s:").
        now rewrite iprefix_app, E.
    + destruct (iprefix (str "mailto:") u) as [r|] eqn:E; [|discriminate].
      exists (str "mailto"), r. split; [set_solver | exact E].
    + destruct (iprefix (str "ftp:") u) as [r|] eqn:E; [|discriminate].
      exists (str "ftp"), r. split; [set_solver | exact E].
  - intros (scheme & rest & Hin & Hp).
    repeat (apply elem_of_cons in Hin as [-> | Hin]).
    + rewrite iprefix_app in Hp.
      destruct (iprefix (str "http") u) as [r|]; [|discriminate].
      now rewrite Hp.
    + change (str "https" ++ str ":") with (str "http" ++ str "s:") in Hp.
      rewrite iprefix_app in Hp.
      destruct (iprefix (str "http") u) as [r|]; [|discriminate].
      rewrite Hp. now destruct (iprefix (str ":") r).
    + change (str "mailto" ++ str ":") with (str "mailto:") in Hp.
      rewrite Hp. apply orb_true_iff. left. apply orb_true_r.
    + change (str "ftp" ++ str ":") with (str "ftp:") in Hp.
      rewrite Hp. apply orb_true_r.
    + now apply elem_of_nil in Hin.
Qed.



(** *** Samples *)

Example web_link_styled_anchor_not :
  applyHyperlinkStyle sampleCharacterStyles [webLink; anchorLink]
  = [{| destination := destination webLink;
        source := HyperlinkTextSource
                    (Some {| length := 11;
                             appliedCharacterStyle := Some highlight |}) |};
     anchorLink].
Proof. vm_compute. reflexivity. Qed.

(** *** The property of the stage *)



End HyperlinksFacts.

(** ** Further properties of the pagination flow controller *)

Module PaginationMore.
Import Pagination PaginationFacts.

Section Host.

Variable newPage : list Page -> Page.
Variable capacity : Bounds -> nat.
Variable c : nat.
Hypothesis uniform : forall d, capacity (insideMargins (newPage d)) = c.

Lemma displayed_turns n st :
  pages st <> [] ->
  displayed capacity (textContainers (turns newPage n st))
  = (displayed capacity (textContainers st) + n * c)%nat.
Proof.
  intros Hp. induction n as [|n IH]; cbn [turns]; [lia|].
  rewrite flowStep_chain by now apply turns_nonempty.
  rewrite displayed_app, IH. cbn [geometricBounds]. rewrite uniform. lia.
Qed.

Lemma content_turns n st : content (turns newPage n st) = content st.
Proof. induction n as [|n IH]; cbn [turns]; [reflexivity|]. exact IH. Qed.

Lemma pages_turns n st :
  pages st <> [] ->
  length (pages (turns newPage n st)) = (length (pages st) + n)%nat
  /\ length (textContainers (turns newPage n st))
     = (length (textContainers st) + n)%nat.
Proof.
  intros Hp.
  destruct (turns_grown newPage n st Hp)
    as (added & new & -> & -> & _ & Ha & Hn & _).
  rewrite !length_app. lia.
Qed.

End Host.

(** X2. With frames of one capacity c, a loop that ends has added the least
    number of pages that makes the chain display the whole story: n pages
    and n containers, where n turns' worth of capacity covers the missing
    amount and n - 1 turns' worth does not. *)
Theorem pages_added_is_least
    (newPage : list Page -> Page) (capacity : Bounds -> nat)
    (c fuel : nat) (st st' : State) :
  pages st <> [] ->
  (forall d, capacity (insideMargins (newPage d)) = c) ->
  flowOversetText newPage capacity fuel st = Some st' ->
  exists n,
    length (pages st') = (length (pages st) + n)%nat
    /\ length (textContainers st') = (length (textContainers st) + n)%nat
    /\ content st' = content st
    /\ (content st <= displayed capacity (textContainers st) + n * c)%nat
    /\ (forall k, (k < n)%nat ->
          (displayed capacity (textContainers st) + k * c < content st)%nat).
Proof.
  intros Hp Hc H.
  destruct (flow_turns _ _ _ _ _ H) as (n & _ & -> & Hk & Hf).
  exists n. destruct (pages_turns newPage n st Hp) as [Hpg Hch].
  split; [exact Hpg|]. split; [exact Hch|]. split; [apply content_turns|]. split.
  - unfold overflows in Hf. apply Nat.ltb_ge in Hf.
    now rewrite (displayed_turns _ _ c Hc), content_turns in Hf.
  - intros k Hlt. specialize (Hk k Hlt). unfold overflows in Hk.
    apply Nat.ltb_lt in Hk.
    now rewrite (displayed_turns _ _ c Hc), content_turns in Hk.
Qed.

(** On sample data: three frames' worth of text, frames of capacity 600. *)
Lemma pages_added_is_least_witness :
  exists n,
    length (pages (turns (fun _ => samplePage) 2 threeFrames))
    = (length (pages threeFrames) + n)%nat
    /\ length (textContainers (turns (fun _ => samplePage) 2 threeFrames))
       = (length (textContainers threeFrames) + n)%nat
    /\ content (turns (fun _ => samplePage) 2 threeFrames) = content threeFrames
    /\ (content threeFrames
        <= displayed areaCapacity (textContainers threeFrames) + n * 600)%nat
    /\ (forall k, (k < n)%nat ->
          (displayed areaCapacity (textContainers threeFrames) + k * 600
           < content threeFrames)%nat).
Proof.
  apply (pages_added_is_least (fun _ => samplePage) areaCapacity 600 5
           threeFrames (turns (fun _ => samplePage) 2 threeFrames)).
  - discriminate.
  - intros d. vm_compute. reflexivity.
  - vm_compute. reflexivity.
Defined.

End PaginationMore.

(** ** Further facts on the matching of names and addresses *)

Module JsStringMore.
Import JsString.

Lemma foldCase_idem c : foldCase (foldCase c) = foldCase c.
Proof.
  unfold foldCase.
  destruct ((65 <=? c) && (c <=? 90)) eqn:E; [|now rewrite E].
  apply andb_prop in E as [E1 E2]. apply N.leb_le in E1, E2.
  destruct ((65 <=? c + 32) && (c + 32 <=? 90)) eqn:E'; [|reflexivity].
  apply andb_prop in E' as [_ E']. apply N.leb_le in E'. lia.
Qed.

Lemma ieqb_fold_r a c : ieqb a (foldCase c) = ieqb a c.
Proof. unfold ieqb. now rewrite foldCase_idem. Qed.

Lemma ieqb_fold_l a c : ieqb (foldCase a) c = ieqb a c.
Proof. unfold ieqb. now rewrite foldCase_idem. Qed.

Lemma iprefix_fold pat s :
  iprefix pat (foldCase <$> s) = fmap (M := option) (fmap foldCase) (iprefix pat s).
Proof.
  revert s. induction pat as [|a pat IH]; intros s; [reflexivity|].
  destruct s as [|c s]; [reflexivity|]. cbn [fmap list_fmap iprefix].
  rewrite ieqb_fold_r. destruct (ieqb a c); [apply IH | reflexivity].
Qed.

Lemma iprefix_fold_pattern pat s : iprefix (foldCase <$> pat) s = iprefix pat s.
Proof.
  revert s. induction pat as [|a pat IH]; intros s; [reflexivity|].
  destruct s as [|c s]; [reflexivity|]. cbn [fmap list_fmap iprefix].
  rewrite ieqb_fold_l. destruct (ieqb a c); [apply IH | reflexivity].
Qed.

Lemma iprefix_extend pat s r v :
  iprefix pat s = Some r -> iprefix pat (s ++ v) = Some (r ++ v).
Proof.
  revert s. induction pat as [|a pat IH]; intros s; simpl.
  - now intros [= ->].
  - destruct s as [|c s]; [discriminate|]. simpl.
    destruct (ieqb a c); [apply IH | discriminate].
Qed.

Lemma icontains_of_iprefix pat s r : iprefix pat s = Some r -> icontains pat s = true.
Proof. intros H. destruct s; simpl; now rewrite H. Qed.

End JsStringMore.

(** ** Further properties of the content sanitizer *)

Module SanitizerMore.
Import JsString JsStringFacts Sanitizer SanitizerFacts Returns.

Lemma runsBelow_bound k r t : runsBelow k r t = true -> (r < k)%nat.
Proof.
  revert r. induction t as [|c t IH]; intros r; simpl.
  - apply Nat.ltb_lt.
  - destruct (c =? CR).
    + intros H. apply IH in H. lia.
    + intros H. apply andb_prop in H as [H _]. now apply Nat.ltb_lt.
Qed.

Lemma runsBelow_returns k r x t :
  runsBelow k r (repeat CR x ++ t) = runsBelow k (r + x) t.
Proof.
  revert r. induction x as [|x IH]; intros r; simpl.
  - now rewrite Nat.add_0_r.
  - rewrite IH. f_equal. lia.
Qed.

Section Change.

Variable minRun : nat.
Variable m : nat.
Hypothesis shorter : (m < minRun)%nat.

#[local] Abbreviation change := (changeGrepFrom minRun (repeat CR m)).

Lemma flushRun_short r :
  exists x, flushRun minRun (repeat CR m) r = repeat CR x /\ (x < minRun)%nat.
Proof.
  unfold flushRun. destruct (Nat.leb_spec minRun r).
  - exists m. auto.
  - exists r. auto.
Qed.

Lemma change_bounded r t : runsBelow minRun 0 (change r t) = true.
Proof.
  revert r. induction t as [|c t IH]; intros r; simpl.
  - destruct (flushRun_short r) as (x & -> & Hx).
    rewrite <- (app_nil_r (repeat CR x)), runsBelow_returns. simpl.
    now apply Nat.ltb_lt.
  - destruct (c =? CR) eqn:Ec; [apply IH|].
    destruct (flushRun_short r) as (x & -> & Hx).
    rewrite runsBelow_returns. simpl. rewrite Ec, IH, andb_true_r.
    now apply Nat.ltb_lt.
Qed.

Lemma change_untouched r t :
  runsBelow minRun r t = true -> change r t = repeat CR r ++ t.
Proof.
  revert r. induction t as [|c t IH]; intros r; simpl.
  - intros H. apply Nat.ltb_lt in H. unfold flushRun.
    destruct (Nat.leb_spec minRun r); [lia|]. now rewrite app_nil_r.
  - destruct (c =? CR) eqn:Ec.
    + intros H. rewrite (IH _ H). apply N.eqb_eq in Ec. subst c.
      change (repeat CR (S r)) with (CR :: repeat CR r).
      now rewrite repeat_cons, <- app_assoc.
    + intros H. apply andb_prop in H as [Hr H]. apply Nat.ltb_lt in Hr.
      rewrite (IH _ H). unfold flushRun.
      destruct (Nat.leb_spec minRun r); [lia|]. reflexivity.
Qed.

Lemma change_idempotent t : change 0 (change 0 t) = change 0 t.
Proof. now rewrite (change_untouched 0 _ (change_bounded 0 t)). Qed.

End Change.

Lemma single_runs_paragraphs t :
  (runsBelow 2 1 t = true -> Forall (fun p => p <> []) (paragraphsOf t))
  /\ (runsBelow 2 0 t = true ->
      Forall (fun p => p <> []) (tail (paragraphsOf t))).
Proof.
  induction t as [|c t [IH1 IH0]]; simpl; [split; constructor|].
  destruct (c =? CR).
  - split.
    + intros H. apply runsBelow_bound in H. lia.
    + intros H. simpl. now apply IH1.
  - split; intros H; apply IH0 in H;
      destruct (paragraphsOf t) as [|p ps]; simpl in *;
      repeat constructor; try discriminate; assumption.
Qed.

(** X3. Collapse of returns, lines 44-52: the changed text has no run of
    three returns; text that had none is left as it is; so one application
    is a fixed point for every text. *)
Theorem collapse_returns_fixed_point (t : jsstring) :
  runsBelow 3 0 (collapseReturns t) = true
  /\ (runsBelow 3 0 t = true -> collapseReturns t = t)
  /\ collapseReturns (collapseReturns t) = collapseReturns t.
Proof.
  unfold collapseReturns, changeGrep. split; [|split].
  - apply (change_bounded 3 2). lia.
  - intros H. apply (change_untouched 3 2 ltac:(lia) 0 t H).
  - apply (change_idempotent 3 2). lia.
Qed.

(** X4. Collapse of returns in the later revisions, [(\r){2,}] to [\r]
    (lines 583 and 785-792): the changed text has no two returns in a row,
    so none of its paragraphs after the first is empty; one application is
    a fixed point. *)
Theorem collapse_single_no_empty_paragraph (t : jsstring) :
  runsBelow 2 0 (collapseReturnsSingle t) = true
  /\ Forall (fun p => p <> []) (tail (paragraphsOf (collapseReturnsSingle t)))
  /\ collapseReturnsSingle (collapseReturnsSingle t) = collapseReturnsSingle t.
Proof.
  unfold collapseReturnsSingle, changeGrep.
  pose proof (change_bounded 2 1 ltac:(lia) 0 t) as Hb.
  split; [exact Hb|]. split.
  - now apply single_runs_paragraphs.
  - apply (change_idempotent 2 1). lia.
Qed.

(** *** The trim-and-prune loop *)

Lemma rtrim_last s x : last (rtrim s) = Some x -> isSpace x = false.
Proof.
  induction s as [|c s IH]; simpl; [discriminate|].
  destruct (rtrim s) as [|d r].
  - destruct (isSpace c) eqn:Ec; [discriminate|]. now intros [= <-].
  - intros H. now apply IH.
Qed.

Lemma trim_ends s :
  (forall x, head (trim s) = Some x -> isSpace x = false)
  /\ (forall x, last (trim s) = Some x -> isSpace x = false).
Proof.
  unfold trim, ltrim. split; intros x H.
  - destruct (rtrim (many isSpace s)) as [|c r] eqn:E; [discriminate|].
    injection H as ->. destruct (BulletsFacts.rtrim_first _ _ _ E) as [s' Hs].
    now apply many_head in Hs.
  - now apply rtrim_last in H.
Qed.

Lemma kept_filter_nil (ps : list jsstring) :
  filter kept (trim <$> ps) = [] <-> Forall (fun p => isBlank p = true) ps.
Proof.
  induction ps as [|p ps IH]; [split; [constructor | reflexivity]|].
  rewrite fmap_cons. destruct (isBlank (trim p)) eqn:Hb.
  - rewrite filter_cons_False by (unfold kept; congruence).
    rewrite isBlank_trim in Hb. rewrite IH. split.
    + now constructor.
    + now inversion 1.
  - rewrite filter_cons_True by exact Hb. rewrite isBlank_trim in Hb.
    split; [discriminate|]. inversion 1; congruence.
Qed.

Lemma kept_filter_count (ps : list jsstring) :
  (length (filter kept (trim <$> ps)) + blankParagraphs ps)%nat = length ps.
Proof.
  unfold blankParagraphs. induction ps as [|p ps IH]; [reflexivity|].
  rewrite fmap_cons. cbn [List.filter]. destruct (isBlank (trim p)) eqn:Hb.
  - rewrite filter_cons_False by (unfold kept; congruence).
    rewrite isBlank_trim in Hb. rewrite Hb. simpl. lia.
  - rewrite filter_cons_True by exact Hb.
    rewrite isBlank_trim in Hb. rewrite Hb. simpl. lia.
Qed.

(** X5. Trim-and-prune (lines 62-68) removes exactly the blank paragraphs:
    the paragraphs left and the blank paragraphs of the input add up to the
    input, and the story is left without any paragraph exactly when every
    paragraph was blank. *)
Theorem trim_and_prune_removes_the_blank (ps : list jsstring) :
  (length (trimAndPrune ps) + blankParagraphs ps)%nat = length ps
  /\ (trimAndPrune ps = [] <-> Forall (fun p => isBlank p = true) ps).
Proof.
  rewrite trimAndPrune_filter. split.
  - apply kept_filter_count.
  - apply kept_filter_nil.
Qed.

(** X6. The loop works paragraph by paragraph: on two stories put end to
    end it leaves what it leaves of each, in the same order. *)
Theorem trim_and_prune_app (ps qs : list jsstring) :
  trimAndPrune (ps ++ qs) = trimAndPrune ps ++ trimAndPrune qs.
Proof. now rewrite !trimAndPrune_filter, fmap_app, filter_app. Qed.

(** X7. Every paragraph the loop leaves has a first and a last code unit,
    and neither is white space. *)
Theorem trim_and_prune_ends (ps : list jsstring) :
  Forall (fun p => exists first final,
            head p = Some first /\ last p = Some final
            /\ isSpace first = false /\ isSpace final = false)
    (trimAndPrune ps).
Proof.
  rewrite trimAndPrune_filter. induction ps as [|p ps IH]; [constructor|].
  rewrite fmap_cons. destruct (isBlank (trim p)) eqn:Hb.
  - now rewrite filter_cons_False by (unfold kept; congruence).
  - rewrite filter_cons_True by exact Hb. constructor; [|exact IH].
    destruct (trim_ends p) as [Hh Hl].
    destruct (trim p) as [|c r] eqn:E; [discriminate|].
    destruct (last (c :: r)) as [z|] eqn:Ez.
    + exists c, z. repeat split; auto.
    + apply last_None in Ez. discriminate.
Qed.

(** *** The collapse seen through the loop *)

Lemma paragraphsOf_cons c t :
  c <> CR ->
  paragraphsOf (c :: t)
  = (c :: hd [] (paragraphsOf t)) :: tl (paragraphsOf t).
Proof.
  intros Hc. simpl. destruct (N.eqb_spec c CR); [congruence|].
  now destruct (paragraphsOf t).
Qed.

Lemma paragraphsOf_returns x t :
  filter filled (paragraphsOf (repeat CR x ++ t))
  = filter filled (paragraphsOf t).
Proof.
  induction x as [|x IH]; simpl; [reflexivity|].
  rewrite filter_cons_False by (unfold filled; congruence). exact IH.
Qed.

Lemma alike_filled l1 l2 : alike l1 l2 -> filter filled l1 = filter filled l2.
Proof.
  intros [Hh Ht]. destruct l1 as [|a l1], l2 as [|b l2]; simpl in *; subst.
  - reflexivity.
  - rewrite filter_cons_False by (unfold filled; congruence). exact Ht.
  - rewrite filter_cons_False by (unfold filled; congruence). exact Ht.
  - destruct (decide (filled b)).
    + rewrite !filter_cons_True by assumption. now f_equal.
    + rewrite !filter_cons_False by assumption. exact Ht.
Qed.

Lemma alike_cons c l1 l2 :
  alike l1 l2 ->
  filter filled ((c :: hd [] l1) :: tl l1)
  = filter filled ((c :: hd [] l2) :: tl l2).
Proof.
  intros [Hh Ht]. rewrite !filter_cons_True by discriminate.
  now rewrite Hh, Ht.
Qed.

Lemma kept_of_filled (l : list jsstring) :
  filter kept (trim <$> l) = filter kept (trim <$> filter filled l).
Proof.
  induction l as [|p l IH]; [reflexivity|].
  destruct (decide (filled p)) as [Hp|Hp].
  - rewrite filter_cons_True by exact Hp. rewrite !fmap_cons.
    destruct (isBlank (trim p)) eqn:Hb.
    + now rewrite !filter_cons_False by (unfold kept; congruence).
    + rewrite !filter_cons_True by exact Hb. now f_equal.
  - rewrite filter_cons_False by exact Hp.
    assert (p = []) as -> by (destruct p; [reflexivity | exfalso; now apply Hp]).
    rewrite fmap_cons. now rewrite filter_cons_False by (unfold kept; cbn; congruence).
Qed.

Section Redundant.

Variable minRun : nat.
Variable m : nat.
Hypothesis minRun_pos : (1 <= minRun)%nat.

#[local] Abbreviation change := (changeGrepFrom minRun (repeat CR (S m))).

Lemma flushRun_returns r :
  exists x, flushRun minRun (repeat CR (S m)) r = repeat CR x
            /\ (r = 0%nat -> x = 0%nat).
Proof.
  unfold flushRun. destruct (Nat.leb_spec minRun r).
  - exists (S m). split; [reflexivity | lia].
  - exists r. split; [reflexivity | lia].
Qed.

Lemma change_alike t :
  alike (paragraphsOf (change 0 t)) (paragraphsOf t)
  /\ forall r, filter filled (paragraphsOf (change (S r) t))
               = filter filled (paragraphsOf t).
Proof.
  induction t as [|c t [IHA IHB]].
  - split.
    + cbn [changeGrepFrom]. destruct (flushRun_returns 0) as (x & -> & Hx).
      rewrite (Hx eq_refl). now split.
    + intros r. cbn [changeGrepFrom].
      destruct (flushRun_returns (S r)) as (x & -> & _).
      rewrite <- (app_nil_r (repeat CR x)). apply paragraphsOf_returns.
  - cbn [changeGrepFrom]. destruct (N.eqb_spec c CR) as [->|Hc].
    + split.
      * destruct (changeGrepFrom_head minRun (repeat CR (S m))
                    ltac:(now exists m) 0%nat t) as [z Hz].
        specialize (IHB 0%nat). rewrite Hz in *. cbn [paragraphsOf] in *.
        rewrite N.eqb_refl in *. split; [reflexivity|]. cbn [tl].
        rewrite filter_cons_False in IHB by (unfold filled; congruence).
        exact IHB.
      * intros r. rewrite IHB. cbn [paragraphsOf]. rewrite N.eqb_refl.
        now rewrite filter_cons_False by (unfold filled; congruence).
    + split.
      * destruct (flushRun_returns 0) as (x & -> & Hx). rewrite (Hx eq_refl).
        change (repeat CR 0) with (@nil N). cbn [app].
        rewrite !paragraphsOf_cons by exact Hc.
        destruct IHA as [Hh Ht]. split; cbn [hd tl]; [now rewrite Hh | exact Ht].
      * intros r. destruct (flushRun_returns (S r)) as (x & -> & _).
        rewrite paragraphsOf_returns, !paragraphsOf_cons by exact Hc.
        now apply alike_cons.
Qed.

Lemma change_kept t :
  filter kept (trim <$> paragraphsOf (change 0 t))
  = filter kept (trim <$> paragraphsOf t).
Proof.
  rewrite kept_of_filled, (kept_of_filled (paragraphsOf t)).
  now rewrite (alike_filled _ _ (proj1 (change_alike t))).
Qed.

End Redundant.

(** X21. The collapse of returns does not show in what the stage leaves:
    in both revisions the sanitizer gives what the trim-and-prune loop alone
    gives on the paragraphs of the story text, so the two revisions agree;
    on a story whose paragraphs hold no return that is the loop applied to
    the story itself. *)
Theorem collapse_redundant_before_prune (ps : list jsstring) :
  sanitize ps = trimAndPrune (paragraphsOf (storyText ps))
  /\ sanitizeSingle ps = trimAndPrune (paragraphsOf (storyText ps))
  /\ (Forall (fun p => CR ∉ p) ps ->
      sanitize ps = trimAndPrune ps /\ sanitizeSingle ps = trimAndPrune ps).
Proof.
  assert (H3 : sanitize ps = trimAndPrune (paragraphsOf (storyText ps))).
  { unfold sanitize, insertHeadingBreaks, collapseReturns, changeGrep.
    rewrite !trimAndPrune_filter. apply (change_kept 3 1). lia. }
  assert (H2 : sanitizeSingle ps = trimAndPrune (paragraphsOf (storyText ps))).
  { unfold sanitizeSingle, collapseReturnsSingle, changeGrep.
    rewrite !trimAndPrune_filter. apply (change_kept 2 0). lia. }
  split; [exact H3|]. split; [exact H2|].
  intros Hcr. rewrite H3, H2. now rewrite paragraphsOf_storyText.
Qed.

End SanitizerMore.

(** ** Further properties of pass A *)

Module StyleMappingMore.
Import JsString Document StyleMapping StyleMappingFacts StyleNames.

(** Evaluates the name tests on literal names. *)
Ltac literal_tests :=
  repeat match goal with
    | |- context [icontains (str ?a) (str ?b)] =>
        let v := eval vm_compute in (icontains (str a) (str b)) in
        change (icontains (str a) (str b)) with v
    end.

Lemma gathered_named (rev : Revision) (doc : StyleRegistry) :
  namesAreKeys doc ->
  stylesNamed (match rev with
               | HeadingsToH3 => gatherStylesH3 doc
               | HeadingsToH6 => gatherStylesH6 doc
               end).
Proof.
  intros Hdoc. destruct rev; unfold stylesNamed; cbn;
    repeat split; intros s H; try discriminate; now apply Hdoc.
Qed.

(** A paragraph that bears one of the target styles is mapped to that
    style again. *)
Lemma mapStyle_on_target rev styles q s :
  stylesNamed styles ->
  appliedParagraphStyle q = Some s ->
  body styles = Some s
  \/ h1 styles = Some s \/ h2 styles = Some s \/ h3 styles = Some s
  \/ (rev = HeadingsToH6
      /\ (h4 styles = Some s \/ h5 styles = Some s \/ h6 styles = Some s)) ->
  mapStyle rev styles q = clearOverrides (setStyle (Some s) q).
Proof.
  intros (Nb & N1 & N2 & N3 & N4 & N5 & N6) Hq Hs.
  destruct rev; unfold mapStyle, mapStyleH3, mapStyleH6, srcNameOf; rewrite Hq;
    destruct Hs as [H | [H | [H | [H | [[=] H]]]]];
    try destruct H as [H | [H | H]];
    first [ rewrite (Nb _ H) | rewrite (N1 _ H) | rewrite (N2 _ H)
          | rewrite (N3 _ H) | rewrite (N4 _ H) | rewrite (N5 _ H)
          | rewrite (N6 _ H) ];
    literal_tests; rewrite H; cbn [andb registered]; reflexivity.
Qed.

(** What one application does: the paragraph gets one of the target
    styles, or no condition of the chain holds for its name. *)
Lemma mapStyle_cases rev styles p :
  (exists s,
     mapStyle rev styles p = clearOverrides (setStyle (Some s) p)
     /\ (body styles = Some s
         \/ h1 styles = Some s \/ h2 styles = Some s \/ h3 styles = Some s
         \/ (rev = HeadingsToH6
             /\ (h4 styles = Some s \/ h5 styles = Some s
                 \/ h6 styles = Some s))))
  \/ (forall q, srcNameOf q = srcNameOf p ->
        mapStyle rev styles q = clearOverrides q).
Proof.
  destruct rev; unfold mapStyle, mapStyleH3, mapStyleH6;
    repeat
      match goal with
      | |- context [icontains ?a (srcNameOf p) && registered ?c] =>
          let E := fresh "E" in
          let Hc := fresh "Hc" in
          destruct (icontains a (srcNameOf p) && registered c) eqn:E;
          [ left; apply andb_prop in E as [_ E];
            destruct c as [s|] eqn:Hc;
            [exists s; split; [reflexivity | tauto] | discriminate]
          | ]
      end.
  all: destruct (body styles) as [s|] eqn:Hb; cbn [registered];
    [ left; exists s; split; [reflexivity | tauto]
    | right; intros q ->; rewrite ?andb_false_r in *;
      repeat match goal with H : _ = false |- _ => rewrite H end;
      reflexivity ].
Qed.

(** X8. Pass A run a second time changes nothing (both revisions of the
    chain), provided the styles of the [styles] object bear the names they
    were looked up under. *)
Theorem style_mapping_idempotent
    (rev : Revision) (styles : Styles) (paragraphs : list Paragraph) :
  stylesNamed styles ->
  applyStyleMapping rev styles (applyStyleMapping rev styles paragraphs)
  = applyStyleMapping rev styles paragraphs.
Proof.
  intros Hn. unfold applyStyleMapping. rewrite map_map. apply map_ext.
  intros p. destruct (mapStyle_cases rev styles p) as [(s & E & Hs)|Hnone].
  - rewrite E.
    now rewrite (mapStyle_on_target rev styles
                   (clearOverrides (setStyle (Some s) p)) s Hn eq_refl Hs).
  - rewrite (Hnone p eq_refl). now rewrite (Hnone (clearOverrides p)).
Qed.

(** On sample data: "Body" registered, no heading style. *)
Lemma style_mapping_idempotent_witness :
  applyStyleMapping HeadingsToH6 (gatherStylesH6 bodyOnlyDocument)
    (applyStyleMapping HeadingsToH6 (gatherStylesH6 bodyOnlyDocument)
       [headingParagraph])
  = applyStyleMapping HeadingsToH6 (gatherStylesH6 bodyOnlyDocument)
      [headingParagraph].
Proof.
  apply (style_mapping_idempotent HeadingsToH6
           (gatherStylesH6 bodyOnlyDocument) [headingParagraph]).
  repeat split; intros s H; vm_compute in H; try discriminate.
  injection H as <-. reflexivity.
Defined.

(** X10. The two revisions of the chain give the same result on every
    paragraph whose source style name does not contain "Normal" and for
    which none of the Heading 4 to Heading 6 rules holds. *)
Theorem chains_agree (styles : Styles) (p : Paragraph) :
  icontains (str "Normal") (srcNameOf p) = false ->
  icontains (str "Heading 4") (srcNameOf p) && registered (h4 styles) = false ->
  icontains (str "Heading 5") (srcNameOf p) && registered (h5 styles) = false ->
  icontains (str "Heading 6") (srcNameOf p) && registered (h6 styles) = false ->
  mapStyle HeadingsToH3 styles p = mapStyle HeadingsToH6 styles p.
Proof.
  intros HN H4 H5 H6. unfold mapStyle, mapStyleH3, mapStyleH6.
  rewrite HN, H4, H5, H6. cbn [andb].
  repeat match goal with
    | |- context [icontains ?a ?b && registered ?c] =>
        destruct (icontains a b && registered c)
    end; reflexivity.
Qed.

(** On sample data: a paragraph styled "Heading 3 Char". *)
Lemma chains_agree_witness :
  mapStyle HeadingsToH3 (gatherStylesH6 bodyOnlyDocument) headingParagraph
  = mapStyle HeadingsToH6 (gatherStylesH6 bodyOnlyDocument) headingParagraph.
Proof.
  apply (chains_agree (gatherStylesH6 bodyOnlyDocument) headingParagraph);
    vm_compute; reflexivity.
Defined.

End StyleMappingMore.

(** ** Further properties of pass B *)

Module BulletsMore.
Import JsString JsStringFacts JsStringMore Document Bullets BulletsFacts
  BulletsSimple.

Lemma optTab_after_spaces s : optTab (many isSpace s) = many isSpace s.
Proof.
  destruct (many isSpace s) as [|c r] eqn:E; [reflexivity|].
  apply many_head in E. simpl. destruct (N.eqb_spec c TAB) as [->|_];
    [discriminate | reflexivity].
Qed.

Lemma spaces_head s x : head (many isSpace s) = Some x -> isSpace x = false.
Proof.
  destruct (many isSpace s) as [|c r] eqn:E; [discriminate|].
  intros [= <-]. now apply many_head in E.
Qed.

(** X11. What is left after a match of any of the four glyph patterns does
    not begin with white space: the white space after the glyph is taken
    whole, and the optional tab that ends each pattern never has a tab left
    to match. *)
Theorem after_glyph_no_space (txt r : jsstring) (x : N) :
  glyphRE txt = Some r \/ primaryBulletRE txt = Some r
  \/ subBulletGlyphRE txt = Some r \/ dashBulletRE txt = Some r ->
  head r = Some x ->
  isSpace x = false.
Proof.
  unfold glyphRE, primaryBulletRE, subBulletGlyphRE, dashBulletRE, many1, oneOf.
  intros H Hx. destruct txt as [|c s]; [now destruct H as [|[|[|]]]|].
  destruct H as [H | [H | [H | H]]].
  - destruct (isGlyph c); [|discriminate]. injection H as <-.
    rewrite optTab_after_spaces in Hx. now apply spaces_head in Hx.
  - destruct (isPrimaryGlyph c); [|discriminate]. injection H as <-.
    rewrite optTab_after_spaces in Hx. now apply spaces_head in Hx.
  - destruct (isSubGlyph c); [|discriminate]. injection H as <-.
    rewrite optTab_after_spaces in Hx. now apply spaces_head in Hx.
  - destruct (isDash c); [|discriminate].
    destruct s as [|w s]; [discriminate|].
    destruct (isSpace w); [|discriminate]. injection H as <-.
    rewrite optTab_after_spaces in Hx. now apply spaces_head in Hx.
Qed.

(** On sample data: "• Item one". *)
Lemma after_glyph_no_space_witness : isSpace 73 = false.
Proof.
  apply (after_glyph_no_space (BULLET :: str " Item one") (str "Item one") 73).
  - left. reflexivity.
  - reflexivity.
Defined.

(** *** [normalizeBullets] *)

Lemma after_one_suffix c s :
  exists dropped, dropped <> [] /\ c :: s = dropped ++ optTab (many isSpace s).
Proof.
  destruct (many_suffix isSpace s) as [d1 H1].
  destruct (optTab_suffix (many isSpace s)) as [d2 H2].
  exists (c :: d1 ++ d2). split; [discriminate|].
  simpl. rewrite <- app_assoc, <- H2, <- H1. reflexivity.
Qed.

Lemma pattern_suffix (txt r : jsstring) :
  primaryBulletRE txt = Some r \/ subBulletGlyphRE txt = Some r
  \/ dashBulletRE txt = Some r ->
  exists dropped, dropped <> [] /\ txt = dropped ++ r.
Proof.
  unfold primaryBulletRE, subBulletGlyphRE, dashBulletRE, many1, oneOf.
  destruct txt as [|c s]; [now intros [|[|]]|].
  intros [H | [H | H]].
  - destruct (isPrimaryGlyph c); [|discriminate]. injection H as <-.
    apply after_one_suffix.
  - destruct (isSubGlyph c); [|discriminate]. injection H as <-.
    apply after_one_suffix.
  - destruct (isDash c); [|discriminate].
    destruct s as [|w s]; [discriminate|].
    destruct (isSpace w) eqn:Hw; [|discriminate]. injection H as <-.
    destruct (after_one_suffix c (w :: s)) as (d & Hd & E).
    exists d. split; [exact Hd|]. rewrite E. simpl. now rewrite Hw.
Qed.

Lemma normalizeBullet_cases styles pp :
  normalizeBullet styles pp = pp
  \/ exists s dropped,
       (subBullet styles = Some s \/ bullet styles = Some s)
       /\ appliedParagraphStyle (normalizeBullet styles pp) = Some s
       /\ bulletsAndNumberingListType (normalizeBullet styles pp) = BULLET_LIST
       /\ dropped <> []
       /\ contents pp = dropped ++ contents (normalizeBullet styles pp).
Proof.
  unfold normalizeBullet, test, replaceFirst.
  destruct (subBullet styles) as [sb|] eqn:Hsb; cbn [registered andb].
  - destruct (subBulletGlyphRE (contents pp)) as [r|] eqn:E.
    + right. destruct (pattern_suffix _ r (or_intror (or_introl E)))
        as (d & Hd & Hc).
      exists sb, d. repeat split; auto.
    + destruct (bullet styles) as [b|] eqn:Hb; cbn [registered andb]; [|now left].
      destruct (primaryBulletRE (contents pp)) as [r|] eqn:E1.
      * right. destruct (pattern_suffix _ r (or_introl E1)) as (d & Hd & Hc).
        exists b, d. repeat split; auto.
      * destruct (dashBulletRE (contents pp)) as [r|] eqn:E2; [|now left].
        right. destruct (pattern_suffix _ r (or_intror (or_intror E2)))
          as (d & Hd & Hc).
        exists b, d. repeat split; auto.
  - destruct (bullet styles) as [b|] eqn:Hb; cbn [registered andb]; [|now left].
    destruct (primaryBulletRE (contents pp)) as [r|] eqn:E1.
    + right. destruct (pattern_suffix _ r (or_introl E1)) as (d & Hd & Hc).
      exists b, d. repeat split; auto.
    + destruct (dashBulletRE (contents pp)) as [r|] eqn:E2; [|now left].
      right. destruct (pattern_suffix _ r (or_intror (or_intror E2)))
        as (d & Hd & Hc).
      exists b, d. repeat split; auto.
Qed.

(** X12. [normalizeBullets] (lines 637-680) keeps the number and order of
    the paragraphs; each paragraph is left as it is, or receives a registered
    bullet or sub-bullet style and the list flag and loses a prefix of its
    text, never anything else.  When neither style is registered no
    paragraph is changed. *)
Theorem normalize_bullets_only_strips
    (styles : Styles) (paras : list Paragraph) :
  length (normalizeBullets styles paras) = length paras
  /\ (forall i pp, paras !! i = Some pp ->
        exists q,
          normalizeBullets styles paras !! i = Some q
          /\ (q = pp
              \/ exists s dropped,
                   (subBullet styles = Some s \/ bullet styles = Some s)
                   /\ appliedParagraphStyle q = Some s
                   /\ bulletsAndNumberingListType q = BULLET_LIST
                   /\ dropped <> []
                   /\ contents pp = dropped ++ contents q))
  /\ (subBullet styles = None -> bullet styles = None ->
      normalizeBullets styles paras = paras).
Proof.
  unfold normalizeBullets. split; [apply length_map|]. split.
  - intros i pp Hi. exists (normalizeBullet styles pp).
    rewrite list_lookup_fmap, Hi. split; [reflexivity|].
    apply normalizeBullet_cases.
  - intros Hs Hb. rewrite <- (map_id paras) at 2. apply map_ext. intros pp.
    unfold normalizeBullet. now rewrite Hs, Hb.
Qed.

(** X13. The dash rule of [normalizeBullets] (line 646) asks for white
    space after the hyphen or en-dash: a paragraph whose dash is followed by
    anything else, or by nothing, is left as it is, whatever styles are
    registered; with white space after the dash and a registered bullet
    style it becomes a bullet, the dash and the white space removed. *)
Theorem dash_needs_space
    (styles : Styles) (pp : Paragraph) (c : N) (rest : jsstring) :
  contents pp = c :: rest ->
  c = HYPHEN \/ c = EN_DASH ->
  ((forall w, head rest = Some w -> isSpace w = false) ->
   normalizeBullet styles pp = pp)
  /\ (forall w r b,
        rest = w :: r -> isSpace w = true -> bullet styles = Some b ->
        appliedParagraphStyle (normalizeBullet styles pp) = Some b
        /\ bulletsAndNumberingListType (normalizeBullet styles pp) = BULLET_LIST
        /\ contents (normalizeBullet styles pp) = many isSpace r).
Proof.
  intros Hc Hcls.
  assert (Hsub : isSubGlyph c = false)
    by (destruct Hcls as [-> | ->]; reflexivity).
  assert (Hprim : isPrimaryGlyph c = false)
    by (destruct Hcls as [-> | ->]; reflexivity).
  assert (Hdash : isDash c = true)
    by (destruct Hcls as [-> | ->]; reflexivity).
  unfold normalizeBullet, test, replaceFirst, subBulletGlyphRE,
    primaryBulletRE, dashBulletRE, oneOf, many1.
  rewrite Hc, Hsub, Hprim, Hdash, !andb_false_r. split.
  - intros Hrest. destruct rest as [|w r]; [now rewrite andb_false_r|].
    rewrite (Hrest w eq_refl). now rewrite andb_false_r.
  - intros w r b -> Hw Hb. rewrite Hw, Hb. cbn [registered andb].
    repeat split. cbn. apply optTab_after_spaces.
Qed.

(** On sample data: "-item" and "- item". *)
Lemma dash_needs_space_witness :
  normalizeBullet sampleStyles (plain bodyText (str "-item"))
  = plain bodyText (str "-item")
  /\ contents (normalizeBullet sampleStyles (plain bodyText (str "- item")))
     = str "item".
Proof.
  split.
  - apply (proj1 (dash_needs_space sampleStyles (plain bodyText (str "-item"))
                    HYPHEN (str "item") eq_refl (or_introl eq_refl))).
    intros w [= <-]. reflexivity.
  - apply (proj2 (dash_needs_space sampleStyles (plain bodyText (str "- item"))
                    HYPHEN (str " item") eq_refl (or_introl eq_refl))
             SP (str "item") bulletsStyle eq_refl eq_refl eq_refl).
Defined.

(** *** [normalizeBulletsAndLists] with the rolling flag *)

Lemma trimmed_no_tab (s : jsstring) : trim s = s -> startsWithTab (rtrim s) = false.
Proof.
  intros Hs. unfold startsWithTab.
  destruct (rtrim s) as [|c r] eqn:E; [reflexivity|].
  destruct (rtrim_first _ _ _ E) as [s' ->].
  unfold trim, ltrim in Hs. destruct (N.eqb_spec c TAB) as [->|]; [|reflexivity].
  simpl in Hs. apply (f_equal (@List.length N)) in Hs.
  pose proof (many_suffix isSpace s') as [d Hd].
  assert (Hle1 : (List.length (rtrim (many isSpace s')) <= List.length (many isSpace s'))%nat).
  { clear. generalize (many isSpace s'). intros t.
    induction t as [|x t IH]; simpl; [lia|].
    destruct (rtrim t); [destruct (isSpace x); simpl; lia | simpl in *; lia]. }
  apply (f_equal (@List.length N)) in Hd. rewrite length_app in Hd.
  simpl in Hs. lia.
Qed.

Lemma listStep_trimmed styles prev p :
  trim (contents p) = contents p ->
  fst (listStep styles prev p) = fst (listStep styles false p)
  /\ contextual prev p = false.
Proof.
  intros Ht. assert (Hc : forall f, contextual f p = false).
  { intros f. unfold contextual, txtOf. now rewrite trimmed_no_tab. }
  split; [|apply Hc]. unfold listStep, shouldBeBullet. now rewrite !Hc.
Qed.

Lemma listLoop_trimmed styles prev (paras : list Paragraph) :
  Forall (fun p => trim (contents p) = contents p) paras ->
  fst (listLoop styles prev paras)
  = map (fun p => fst (listStep styles false p)) paras.
Proof.
  intros H. revert prev. induction H as [|p ps Hp _ IH]; intros prev;
    [reflexivity|].
  simpl. destruct (listStep_trimmed styles prev p Hp) as [E _].
  destruct (listStep styles prev p) as [p' prev']. specialize (IH prev').
  destruct (listLoop styles prev' ps). simpl in *. now rewrite E, IH.
Qed.

(** X14. On paragraphs that are trimmed, as the sanitizer leaves them, the
    contextual signal of [normalizeBulletsAndLists] (lines 273-321) never
    holds, since no text begins with a tab: each paragraph is classified on
    its own, by its list flag and its leading glyph, whatever came before. *)
Theorem contextual_signal_dead_after_trim
    (styles : Styles) (paras : list Paragraph) :
  Forall (fun p => trim (contents p) = contents p) paras ->
  normalizeBulletsAndLists styles paras
  = map (fun p => fst (listStep styles false p)) paras
  /\ forall k p, paras !! k = Some p ->
       contextual (flagAt styles paras k) p = false.
Proof.
  intros H. split; [now apply listLoop_trimmed|].
  intros k p Hk. apply (listStep_trimmed styles).
  rewrite Forall_forall in H. apply H.
  now apply list_elem_of_lookup_2 in Hk.
Qed.

(** On sample data: two trimmed paragraphs. *)
Lemma contextual_signal_dead_after_trim_witness :
  normalizeBulletsAndLists sampleStyles
    [plain bodyText (str "- first"); plain bodyText (str "second")]
  = map (fun p => fst (listStep sampleStyles false p))
      [plain bodyText (str "- first"); plain bodyText (str "second")]
  /\ forall k p,
       [plain bodyText (str "- first"); plain bodyText (str "second")] !! k
       = Some p ->
       contextual
         (flagAt sampleStyles
            [plain bodyText (str "- first"); plain bodyText (str "second")] k)
         p = false.
Proof.
  apply (contextual_signal_dead_after_trim sampleStyles
           [plain bodyText (str "- first"); plain bodyText (str "second")]).
  repeat constructor.
Defined.



(** X16. The glyphs are removed before the tabs (line 312): from text that
    begins with tabs, only the tabs are removed, and a glyph that follows
    them stays at the head of the paragraph. *)
Theorem tabs_then_glyph_keeps_glyph (n : nat) (c : N) (rest : jsstring) :
  c <> TAB ->
  stripGlyphsAndTabs (repeat TAB (S n) ++ c :: rest) = c :: rest.
Proof.
  intros Hc. unfold stripGlyphsAndTabs, replaceFirst, glyphRE, many1.
  cbn [repeat app]. replace (isGlyph TAB) with false by reflexivity.
  cbn [many]. rewrite N.eqb_refl.
  induction n as [|n IH]; cbn [repeat app many].
  - destruct (N.eqb_spec TAB c); [congruence | reflexivity].
  - rewrite N.eqb_refl. exact IH.
Qed.

(** On sample data: a tab, then "• item". *)
Lemma tabs_then_glyph_keeps_glyph_witness :
  stripGlyphsAndTabs (repeat TAB 1 ++ BULLET :: str " item")
  = BULLET :: str " item".
Proof.
  apply (tabs_then_glyph_keeps_glyph 0 BULLET (str " item")). discriminate.
Defined.

(** X23. Every paragraph the tab-aware revision skips as heading or table
    (line 296) is skipped by the tightened revision too (line 112), but not
    the other way round: a style name that only contains "Heading", such as
    "Heading 2 Char", is skipped by the tightened revision alone. *)
Theorem skip_tests_nested :
  (forall p, isHeadingOrTable p = true ->
             namesHeadingOrTable (srcNameOf p) = true)
  /\ exists p, namesHeadingOrTable (srcNameOf p) = true
               /\ isHeadingOrTable p = false.
Proof.
  split.
  - intros p. unfold isHeadingOrTable, namesHeadingOrTable.
    change (str "heading") with (foldCase <$> str "Heading").
    change (str "table") with (foldCase <$> str "Table").
    rewrite !iprefix_fold_pattern. intros H. apply orb_prop in H as [H|H].
    + destruct (iprefix (str "Heading") (srcNameOf p)) as [r|] eqn:E;
        [|discriminate].
      now rewrite (icontains_of_iprefix _ _ _ E).
    + destruct (iprefix (str "Table") (srcNameOf p)) as [r|] eqn:E;
        [|discriminate].
      rewrite (icontains_of_iprefix _ _ _ E). apply orb_true_r.
  - exists (plain {| name := str "Heading 2 Char"; styleId := 6 |} []).
    split; reflexivity.
Qed.

(** *** The first bullet step and [normalizeBullets] *)

(** X17. On a paragraph that begins with a black circle and a tab, with a
    registered bullet style, the first bullet step (lines 473-492) and
    [normalizeBullets] give the same style; the first removes the two code
    units, the second also the white space that follows, and only the second
    sets the list flag. *)
Theorem simple_and_normalize_agree
    (styles : Styles) (para : Paragraph) (b : ParagraphStyle) (rest : jsstring) :
  contents para = BLACK_CIRCLE :: TAB :: rest ->
  bullet styles = Some b ->
  appliedParagraphStyle (applyBullet (bullet styles) (subBullet styles) para)
  = Some b
  /\ appliedParagraphStyle (normalizeBullet styles para) = Some b
  /\ contents (applyBullet (bullet styles) (subBullet styles) para) = rest
  /\ contents (normalizeBullet styles para) = ltrim rest
  /\ bulletsAndNumberingListType
       (applyBullet (bullet styles) (subBullet styles) para)
     = bulletsAndNumberingListType para
  /\ bulletsAndNumberingListType (normalizeBullet styles para) = BULLET_LIST.
Proof.
  intros Hc Hb. unfold applyBullet, normalizeBullet, test, replaceFirst.
  rewrite Hc, Hb.
  replace (subBulletGlyphRE (BLACK_CIRCLE :: TAB :: rest)) with (@None jsstring)
    by reflexivity.
  rewrite andb_false_r. cbn [registered andb].
  replace (glyphTab BLACK_CIRCLE (BLACK_CIRCLE :: TAB :: rest)) with (Some rest)
    by reflexivity.
  replace (primaryBulletRE (BLACK_CIRCLE :: TAB :: rest))
    with (Some (optTab (many isSpace rest))) by reflexivity.
  cbn. repeat split. apply optTab_after_spaces.
Qed.

(** On sample data: a black circle, a tab, " item". *)
Lemma simple_and_normalize_agree_witness :
  contents (normalizeBullet sampleStyles
              (plain bodyText (BLACK_CIRCLE :: TAB :: str " item")))
  = ltrim (str " item").
Proof.
  exact (proj1 (proj2 (proj2 (proj2
    (simple_and_normalize_agree sampleStyles
       (plain bodyText (BLACK_CIRCLE :: TAB :: str " item")) bulletsStyle
       (str " item") eq_refl eq_refl))))).
Defined.

End BulletsMore.

(** ** Further properties of the hyperlink classifier *)

Module HyperlinksMore.
Import JsString JsStringMore Hyperlinks HyperlinksFacts HyperlinkRevisions.

Lemma styleLink_idem hs link : styleLink hs (styleLink hs link) = styleLink hs link.
Proof.
  unfold styleLink. destruct (isUrlDest (destination link)) eqn:Hd; simpl;
    [|now rewrite Hd].
  destruct (source link) as [[text|]|] eqn:Hs; simpl; rewrite ?Hd, ?Hs; simpl;
    try reflexivity.
  destruct (0 <? length text)%nat eqn:Hl; simpl; rewrite ?Hd, ?Hs; simpl;
    now rewrite ?Hl.
Qed.

(** X18. The hyperlink pass (lines 137-160) run a second time changes
    nothing. *)
Theorem hyperlink_pass_idempotent
    (characterStyles : CharacterStyles) (hyperlinks : list Hyperlink) :
  applyHyperlinkStyle characterStyles
    (applyHyperlinkStyle characterStyles hyperlinks)
  = applyHyperlinkStyle characterStyles hyperlinks.
Proof.
  unfold applyHyperlinkStyle.
  destruct (characterStyles !! hyperlinkStyleName) as [hs|]; [|reflexivity].
  destruct hyperlinks as [|l ls]; [reflexivity|].
  cbn [List.length Nat.ltb Nat.leb map]. rewrite map_map, styleLink_idem.
  f_equal. apply map_ext. intros a. apply styleLink_idem.
Qed.

(** X19. The three revisions of the loop body are nested: a link changed by
    the revision that accepts only destinations of the URL class (lines
    903-913) is changed in the same way by the revision that also accepts
    addresses with a URL scheme (lines 150-158), and a link changed by that
    one is changed in the same way by the revision that styles every text
    source (lines 704-709). *)
Theorem link_revisions_nested (hs : CharacterStyle) (link : Hyperlink) :
  (styleLinkUrlClass hs link <> link ->
   styleLink hs link = styleLinkUrlClass hs link)
  /\ (styleLink hs link <> link ->
      styleLinkAny hs link = styleLink hs link).
Proof.
  unfold styleLinkUrlClass, styleLink, styleLinkAny. split.
  - destruct (destination link) as [u | o | ] eqn:Hd; simpl;
      [reflexivity | congruence | congruence].
  - destruct (isUrlDest (destination link)); simpl; [|congruence].
    destruct (source link) as [[text|]|]; try congruence.
    destruct (0 <? length text)%nat; [reflexivity | congruence].
Qed.

Lemma beginsWithScheme_extend u v :
  beginsWithScheme u -> beginsWithScheme (u ++ v).
Proof.
  intros (scheme & rest & Hin & Hp). exists scheme, (rest ++ v).
  split; [exact Hin | now apply iprefix_extend].
Qed.

Lemma beginsWithScheme_fold u :
  beginsWithScheme (foldCase <$> u) <-> beginsWithScheme u.
Proof.
  unfold beginsWithScheme. split; intros (scheme & rest & Hin & Hp).
  - rewrite iprefix_fold in Hp.
    destruct (iprefix (scheme ++ str ":") u) as [r|] eqn:E; [|discriminate].
    exists scheme, r. auto.
  - exists scheme, (foldCase <$> rest). split; [exact Hin|].
    now rewrite iprefix_fold, Hp.
Qed.

(** X22. The test of the address (line 145) looks at its beginning only and
    does not tell upper from lower case: an accepted address stays accepted
    whatever is put after it, and folding the case of an address does not
    change the answer. *)
Theorem url_scheme_test_prefix_and_case (u v : jsstring) :
  (hasUrlScheme u = true -> hasUrlScheme (u ++ v) = true)
  /\ hasUrlScheme (foldCase <$> u) = hasUrlScheme u.
Proof.
  split.
  - rewrite !hasUrlScheme_spec. apply beginsWithScheme_extend.
  - apply Bool.eq_iff_eq_true. rewrite !hasUrlScheme_spec.
    apply beginsWithScheme_fold.
Qed.

End HyperlinksMore.

